(** * deepneat: the experiment result model, its binary codec and analytics

    A shallow embedding of [experiment/generation.go] and
    [experiment/experiment.go], and of the two small packages
    [snake/snake.go] and [vector/vector.go].

    - Go's [int], [int64] and [time.Duration] are integers in [Z]; where the
      source does arithmetic on them the 64-bit wrap-around is written out.
    - Go's [float64] is IEEE 754 binary64, which is the kernel's primitive
      [float] with the same rounding (to nearest, ties to even).
    - [*genetics.Organism] is an address into a store of organisms, so that
      aliasing between a population, a generation and the analytics is kept.
    - A [gob] stream is the sequence of the values sent through it.
    - The numbers [rand.Intn] draws are given as a list, in the order of the
      calls. *)

From Stdlib Require Import Floats.
From Stdlib Require Import ZArith Lia Bool.
From Stdlib Require Import Uint63.
From stdpp Require Import base list strings.

Local Open Scope Z_scope.

Abbreviation float64 := PrimFloat.float.
Abbreviation ptr := nat.

(** ** Go's numeric conversions *)
Module Go.

Definition minInt64 : Z := - 2 ^ 63.
Definition maxInt64 : Z := 2 ^ 63 - 1.

(** two's complement wrap-around of an [int64] result *)
Definition wrap64 (z : Z) : Z := (z + 2 ^ 63) mod 2 ^ 64 - 2 ^ 63.

(** [float64(z)] for an [int64] [z]: the nearest binary64 *)
Definition float64_of_int (z : Z) : float64 :=
  if z =? minInt64 then (-9223372036854775808)%float
  else if z <? 0 then PrimFloat.opp (PrimFloat.of_uint63 (Uint63.of_Z (- z)))
  else PrimFloat.of_uint63 (Uint63.of_Z z).

(** [time.Second] in nanoseconds *)
Definition Second : Z := 1000000000.

(** [time.Duration.Seconds]:
    [sec := d / Second; nsec := d % Second;
     return float64(sec) + float64(nsec)/1e9] *)
Definition Seconds (d : Z) : float64 :=
  let sec := Z.quot d Second in
  let nsec := Z.rem d Second in
  (float64_of_int sec + float64_of_int nsec / 1e9)%float.

End Go.

(** ** Errors and results *)

(** The error values the codec can return: what [gob] reports for an exhausted
    stream or for a value of another type, an error of a collaborator, a
    run-time panic, and [errors.Wrap(cause, msg)]. *)
Inductive error : Type :=
| EOF
| Mismatch
| Failure (msg : string)
| Panic
| Wrap (cause : error) (msg : string).

Inductive result (A : Type) : Type :=
| Ok (a : A)
| Err (e : error).
Arguments Ok {A} a.
Arguments Err {A} e.

(** ** The genome collaborator

    [genetics.Genome] is consumed through its identity, its plain-text writer
    and the matching reader [genetics.ReadGenome]. *)
Class GenomeAPI : Type := {
  Genome : Type;
  Genome_Id : Genome -> Z;
  Genome_Write : Genome -> result (list Byte.byte);
  ReadGenome : list Byte.byte -> Z -> result Genome
}.

(** ** genetics.Organism, genetics.Species, genetics.Population *)
Module Organism.
Section defs.
Context `{GenomeAPI}.

Record t : Type := mk {
  Fitness : float64;
  IsWinner : bool;
  Generation : Z;
  ExpectedOffspring : float64;
  Error : float64;
  Flag : Z;
  Species : option ptr;
  Genotype : option Genome
}.

(** [genetics.Organism{}] *)
Definition zero : t := mk 0%float false 0 0%float 0%float 0 None None.

Definition set_Flag (o : t) (i : Z) : t :=
  mk (Fitness o) (IsWinner o) (Generation o) (ExpectedOffspring o)
     (Error o) i (Species o) (Genotype o).

Definition set_Fitness (o : t) (f : float64) : t :=
  mk f (IsWinner o) (Generation o) (ExpectedOffspring o)
     (Error o) (Flag o) (Species o) (Genotype o).
End defs.
End Organism.

Module Species.
Record t : Type := mk {
  Age : Z;
  Organisms : list ptr
}.
End Species.

Module Population.
Record t : Type := mk {
  Species : list Species.t
}.
End Population.

(** ** The store and the codec monad *)

(** The values a [gob] stream carries. All signed integer types travel as the
    same wire type, so [int], [int64] and [time.Duration] are [VInt]. *)
Inductive Value : Type :=
| VInt (z : Z)
| VBool (b : bool)
| VFloat (f : float64)
| VString (s : string)
| VFloats (l : list float64)
| VBytes (l : list Byte.byte)
| VTime (t : Z).

Section Store.
Context `{GenomeAPI}.

(** The organisms that exist, by address, and the stream behind the
    encoder or decoder. *)
Record Store : Type := mkStore {
  heap : list Organism.t;
  wire : list Value
}.

(** A computation over the store that may return an error. *)
Definition M (A : Type) : Type := Store -> result (A * Store).

Definition ret {A} (a : A) : M A := fun st => Ok (a, st).

Definition bind {A B} (m : M A) (k : A -> M B) : M B :=
  fun st =>
    match m st with
    | Ok (a, st') => k a st'
    | Err e => Err e
    end.

Definition lift {A} (r : result A) : M A :=
  fun st =>
    match r with
    | Ok a => Ok (a, st)
    | Err e => Err e
    end.

(** [if err != nil { return errors.Wrap(err, msg) }] *)
Definition wrapped {A} (m : M A) (msg : string) : M A :=
  fun st =>
    match m st with
    | Ok r => Ok r
    | Err e => Err (Wrap e msg)
    end.

(** Reading through an organism pointer; a nil pointer panics. *)
Definition load (p : ptr) : M Organism.t :=
  fun st =>
    match heap st !! p with
    | Some o => Ok (o, st)
    | None => Err Panic
    end.

(** [&org] for a fresh organism. *)
Definition alloc (o : Organism.t) : M ptr :=
  fun st => Ok (length (heap st), mkStore (heap st ++ [o]) (wire st)).

(** [enc.Encode(v)] / [enc.EncodeValue(reflect.ValueOf(v))] into an
    in-memory stream, which takes every value: the errors of a writer that
    fails are outside this model, and what is proved of an encoder is proved
    of its successful runs. *)
Definition enc_Encode (v : Value) : M unit :=
  fun st => Ok (tt, mkStore (heap st) (wire st ++ [v])).

(** [dec.Decode(&x)]: the next value of the stream, which must have the
    type of [x].  The stream is a sequence of whole values: the error of a
    reader that fails, or of a stream cut inside a value, is outside this
    model. *)
Definition dec_Decode {A} (as_type : Value -> option A) : M A :=
  fun st =>
    match wire st with
    | [] => Err EOF
    | v :: rest =>
        match as_type v with
        | Some a => Ok (a, mkStore (heap st) rest)
        | None => Err Mismatch
        end
    end.

Definition as_int (v : Value) : option Z :=
  match v with VInt z => Some z | _ => None end.
Definition as_bool (v : Value) : option bool :=
  match v with VBool b => Some b | _ => None end.
Definition as_float (v : Value) : option float64 :=
  match v with VFloat f => Some f | _ => None end.
Definition as_string (v : Value) : option string :=
  match v with VString s => Some s | _ => None end.
Definition as_floats (v : Value) : option (list float64) :=
  match v with VFloats l => Some l | _ => None end.
Definition as_bytes (v : Value) : option (list Byte.byte) :=
  match v with VBytes l => Some l | _ => None end.
Definition as_time (v : Value) : option Z :=
  match v with VTime t => Some t | _ => None end.

(** [for _, x := range xs { if err := f(x); err != nil { return err } }] *)
Fixpoint forM_ {A} (f : A -> M unit) (xs : list A) : M unit :=
  match xs with
  | [] => ret tt
  | x :: xs' => bind (f x) (fun _ => forM_ f xs')
  end.

(** [for i := 0; i < n; i++ { x, err := f(); ...; xs[i] = x }] *)
Fixpoint timesM {A} (n : nat) (f : M A) : M (list A) :=
  match n with
  | O => ret []
  | S n' => bind f (fun x => bind (timesM n' f) (fun xs => ret (x :: xs)))
  end.
End Store.

Notation "x <~ m ;; k" := (bind m (fun x => k))
  (at level 200, m at level 99, k at level 200, only parsing).
Notation "m ;;; k" := (bind m (fun _ => k))
  (at level 200, k at level 200, only parsing).

(** ** experiment.Floats *)
Module Floats.

Definition sum (x : list float64) : float64 :=
  fold_left PrimFloat.add x 0%float.

(** Modelled from the spec: [Floats.Mean] (floats.go is not among the
    sources).  The arithmetic mean of the vector; on an empty vector the
    result is 0, never NaN. *)
Definition Mean (x : list float64) : float64 :=
  match x with
  | [] => 0%float
  | _ :: _ => (sum x / Go.float64_of_int (Z.of_nat (length x)))%float
  end.

End Floats.

(** ** Sorting organisms

    [sort.Sort(sort.Reverse(orgs))] on a [genetics.Organisms] slice, a slice
    of organism pointers.  The order [genetics.Organisms.Less] belongs to the
    genetics package and is a parameter; the sort is an insertion sort, which
    puts a greatest organism (one that is below no other) first.  Which of
    several greatest organisms comes first is up to the sort, and Go's may
    choose another one: what is proved uses only that the result is a
    permutation with a greatest organism first.  Comparing through a nil
    pointer panics. *)
Section Sorting.
Context `{GenomeAPI}.
Variable Less : Organism.t -> Organism.t -> bool.

(** [sort.Reverse(orgs).Less(i, j) = orgs.Less(j, i)] *)
Definition reverse_less (h : list Organism.t) (a b : ptr) : bool :=
  match h !! a, h !! b with
  | Some x, Some y => Less y x
  | _, _ => false
  end.

Fixpoint insert_sorted (h : list Organism.t) (a : ptr) (l : list ptr) : list ptr :=
  match l with
  | [] => [a]
  | b :: l' =>
      if reverse_less h b a then b :: insert_sorted h a l' else a :: b :: l'
  end.

Definition sort_Reverse (h : list Organism.t) (l : list ptr) : option (list ptr) :=
  if forallb (fun p => bool_decide (is_Some (h !! p))) l
  then Some (foldr (insert_sorted h) [] l)
  else match l with
       | [_] => Some l
       | _ => None
       end.
End Sorting.

(** ** experiment.Generation (generation.go) *)
Module Generation.

Record t : Type := mk {
  Id : Z;
  Executed : Z;
  Duration : Z;
  Champion : option ptr;
  Solved : bool;
  Fitness : list float64;
  Age : list float64;
  Complexity : list float64;
  Diversity : Z;
  WinnerEvals : Z;
  WinnerNodes : Z;
  WinnerGenes : Z;
  TrialId : Z
}.

(** [Generation{}] *)
Definition zero : t := mk 0 0 0 None false [] [] [] 0 0 0 0 0.

Definition set_Champion (g : t) (c : option ptr) : t :=
  mk (Id g) (Executed g) (Duration g) c (Solved g) (Fitness g) (Age g)
     (Complexity g) (Diversity g) (WinnerEvals g) (WinnerNodes g)
     (WinnerGenes g) (TrialId g).

(** [g.Diversity = d; g.Age = make(Floats, d); g.Complexity = ...;
     g.Fitness = ...] *)
Definition reset_statistics (g : t) (d : nat) : t :=
  mk (Id g) (Executed g) (Duration g) (Champion g) (Solved g)
     (replicate d 0%float) (replicate d 0%float) (replicate d 0%float)
     (Z.of_nat d) (WinnerEvals g) (WinnerNodes g) (WinnerGenes g) (TrialId g).

(** [g.Age[i] = a; g.Complexity[i] = c; g.Fitness[i] = f] *)
Definition set_statistics (g : t) (i : nat) (a c f : float64) : t :=
  mk (Id g) (Executed g) (Duration g) (Champion g) (Solved g)
     (<[i := f]> (Fitness g)) (<[i := a]> (Age g)) (<[i := c]> (Complexity g))
     (Diversity g) (WinnerEvals g) (WinnerNodes g) (WinnerGenes g) (TrialId g).

Section methods.
Context `{GenomeAPI}.
(** [genetics.Organisms.Less] and [organismComplexity], neither among the
    sources. *)
Variable Less : Organism.t -> Organism.t -> bool.
Variable organismComplexity : Organism.t -> Z.

(** The body of the loop of [FillPopulationStatistics] from species [i]
    on, with the running [maxFitness].  [None] is a panic: a species
    without organisms ([Organisms[0]] out of range) or a nil organism. *)
Fixpoint fill_from (h : list Organism.t) (i : nat) (species : list Species.t)
    (maxFitness : float64) (g : t) : option (t * list Species.t) :=
  match species with
  | [] => Some (g, [])
  | currSpecies :: rest =>
      match sort_Reverse Less h (Species.Organisms currSpecies) with
      | Some (p0 :: sorted') =>
          match h !! p0 with
          | Some org0 =>
              let g1 :=
                set_statistics g i
                  (Go.float64_of_int (Species.Age currSpecies))
                  (Go.float64_of_int (organismComplexity org0))
                  (Organism.Fitness org0) in
              let '(maxFitness', g2) :=
                if negb (Solved g1)
                then if (maxFitness <? Organism.Fitness org0)%float
                     then (Organism.Fitness org0, set_Champion g1 (Some p0))
                     else (maxFitness, g1)
                else (maxFitness, g1) in
              match fill_from h (S i) rest maxFitness' g2 with
              | Some (g', rest') =>
                  Some (g', Species.mk (Species.Age currSpecies) (p0 :: sorted') :: rest')
              | None => None
              end
          | None => None
          end
      | _ => None
      end
  end.

(** [FillPopulationStatistics]: the generation after the call, and the
    population with each species' organisms sorted in place. *)
Definition FillPopulationStatistics (h : list Organism.t) (g : t)
    (pop : Population.t) : option (t * Population.t) :=
  let maxFitness := Go.float64_of_int Go.minInt64 in
  let d := length (Population.Species pop) in
  match fill_from h 0 (Population.Species pop) maxFitness (reset_statistics g d) with
  | Some (g', species') => Some (g', Population.mk species')
  | None => None
  end.

Definition Average (g : t) : float64 * float64 * float64 :=
  let fitness := Floats.Mean (Fitness g) in
  let age := Floats.Mean (Age g) in
  let complexity := Floats.Mean (Complexity g) in
  (fitness, age, complexity).

(** [math.MaxInt] when the champion is missing *)
Definition ChampionComplexity (h : list Organism.t) (g : t) : option Z :=
  match Champion g with
  | None => Some Go.maxInt64
  | Some p =>
      match h !! p with
      | Some org => Some (organismComplexity org)
      | None => None
      end
  end.

(** The twelve scalar and vector fields, in the order [Encode] sends
    them. *)
Definition fields (g : t) : list Value :=
  [ VInt (Id g); VTime (Executed g); VBool (Solved g);
    VFloats (Fitness g); VFloats (Age g); VFloats (Complexity g);
    VInt (Diversity g); VInt (WinnerEvals g); VInt (WinnerNodes g);
    VInt (WinnerGenes g); VInt (Duration g); VInt (TrialId g) ].

Definition encodeOrganism (p : ptr) : M unit :=
  org <~ load p ;;
  enc_Encode (VFloat (Organism.Fitness org)) ;;;
  enc_Encode (VBool (Organism.IsWinner org)) ;;;
  enc_Encode (VInt (Organism.Generation org)) ;;;
  enc_Encode (VFloat (Organism.ExpectedOffspring org)) ;;;
  enc_Encode (VFloat (Organism.Error org)) ;;;
  match Organism.Genotype org with
  | Some genotype =>
      enc_Encode (VInt (Genome_Id genotype)) ;;;
      outBuf <~ lift (Genome_Write genotype) ;;
      enc_Encode (VBytes outBuf)
  | None => ret tt
  end.

Definition Encode (g : t) : M unit :=
  enc_Encode (VInt (Id g)) ;;;
  enc_Encode (VTime (Executed g)) ;;;
  enc_Encode (VBool (Solved g)) ;;;
  enc_Encode (VFloats (Fitness g)) ;;;
  enc_Encode (VFloats (Age g)) ;;;
  enc_Encode (VFloats (Complexity g)) ;;;
  enc_Encode (VInt (Diversity g)) ;;;
  enc_Encode (VInt (WinnerEvals g)) ;;;
  enc_Encode (VInt (WinnerNodes g)) ;;;
  enc_Encode (VInt (WinnerGenes g)) ;;;
  enc_Encode (VInt (Duration g)) ;;;
  enc_Encode (VInt (TrialId g)) ;;;
  match Champion g with
  | Some p => encodeOrganism p
  | None => ret tt
  end.

Definition decodeOrganism : M ptr :=
  fitness <~ wrapped (dec_Decode as_float) "failed to decode Fitness" ;;
  isWinner <~ wrapped (dec_Decode as_bool) "failed to decode IsWinner" ;;
  generation <~ wrapped (dec_Decode as_int) "failed to decode Generation" ;;
  expectedOffspring <~ wrapped (dec_Decode as_float) "failed to decode Generation" ;;
  error <~ wrapped (dec_Decode as_float) "failed to decode Generation" ;;
  genId <~ wrapped (dec_Decode as_int) "failed to decode genId" ;;
  data <~ wrapped (dec_Decode as_bytes) "failed to decode organism's data" ;;
  gen <~ lift (ReadGenome data genId) ;;
  alloc (Organism.mk fitness isWinner generation expectedOffspring error
           0 None (Some gen)).

(** [Decode] overwrites every field of its receiver, so the receiver's
    earlier contents do not show in the result. *)
Definition Decode : M t :=
  id <~ wrapped (dec_Decode as_int) "failed to decode Id" ;;
  executed <~ wrapped (dec_Decode as_time) "failed to decode Executed" ;;
  solved <~ wrapped (dec_Decode as_bool) "failed to decode Solved" ;;
  fitness <~ wrapped (dec_Decode as_floats) "failed to decode Fitness" ;;
  age <~ wrapped (dec_Decode as_floats) "failed to decode Age" ;;
  complexity <~ wrapped (dec_Decode as_floats) "failed to decode Complexity" ;;
  diversity <~ wrapped (dec_Decode as_int) "failed to decode Diversity" ;;
  winnerEvals <~ wrapped (dec_Decode as_int) "failed to decode WinnerEvals" ;;
  winnerNodes <~ wrapped (dec_Decode as_int) "failed to decode WinnerNodes" ;;
  winnerGenes <~ wrapped (dec_Decode as_int) "failed to decode WinnerNodes" ;;
  duration <~ wrapped (dec_Decode as_int) "failed to decode Duration" ;;
  trialId <~ wrapped (dec_Decode as_int) "failed to decode TrialId" ;;
  org <~ decodeOrganism ;;
  ret (mk id executed duration (Some org) solved fitness age complexity
          diversity winnerEvals winnerNodes winnerGenes trialId).
End methods.
End Generation.

(** ** experiment.Generations: the sortable collection (generation.go) *)
Module Generations.

Definition Len (gs : list Generation.t) : Z := Z.of_nat (length gs).

(** [is[i], is[j] = is[j], is[i]]; an index out of range panics. *)
Definition Swap (gs : list Generation.t) (i j : nat) : option (list Generation.t) :=
  match gs !! i, gs !! j with
  | Some a, Some b => Some (<[j := a]> (<[i := b]> gs))
  | _, _ => None
  end.

(** Earlier execution time first, and among equal times the smaller id. *)
Definition Less (gs : list Generation.t) (i j : nat) : option bool :=
  match gs !! i, gs !! j with
  | Some a, Some b =>
      Some (if Generation.Executed a =? Generation.Executed b
            then Generation.Id a <? Generation.Id b
            else Generation.Executed a <? Generation.Executed b)
  | _, _ => None
  end.

End Generations.

(** ** experiment.Trial

    trial.go is not among the sources: the record holds what experiment.go
    reads from a trial, and its methods follow the spec. *)
Module Trial.

Record t : Type := mk {
  Generations : list Generation.t;
  WinnerGeneration : option Generation.t;
  Duration : Z
}.

(** [Trial{}] *)
Definition zero : t := mk [] None 0.

Section methods.
Context `{GenomeAPI}.
(** The constant [EmptyDuration], not among the sources. *)
Variable EmptyDuration : Z.

(** Modelled from the spec: [Trial.Solved] (trial.go is missing).  A
    trial is solved when one of its epochs has [solved == true]. *)
Definition Solved (tr : t) : bool :=
  existsb Generation.Solved (Generations tr).

(** Modelled from the spec: [Trial.WinnerStatistics] (trial.go is
    missing).  It locates the first generation with [solved == true], or
    takes the cached one, memoizes it on the trial and yields the
    champion's node count, link count, the evaluations until the winner
    and the diversity of that epoch. *)
Definition WinnerStatistics (tr : t) : t * option (Z * Z * Z * Z) :=
  let w :=
    match WinnerGeneration tr with
    | Some w => Some w
    | None => find Generation.Solved (Generations tr)
    end in
  (mk (Generations tr) w (Duration tr),
   match w with
   | Some g => Some (Generation.WinnerNodes g, Generation.WinnerGenes g,
                     Generation.WinnerEvals g, Generation.Diversity g)
   | None => None
   end).

(** Modelled from the spec: [Trial.AvgEpochDuration] (trial.go is
    missing).  The arithmetic mean of the epochs' durations, and the
    empty duration when the trial has no epoch. *)
Definition AvgEpochDuration (tr : t) : Z :=
  let total :=
    fold_left (fun total g => Go.wrap64 (total + Generation.Duration g))
              (Generations tr) 0 in
  if 0 <? Z.of_nat (length (Generations tr))
  then Z.quot total (Z.of_nat (length (Generations tr)))
  else EmptyDuration.

(** The champions a scan of the trial considers: those that exist and,
    with [onlySolvers], are flagged as winners. *)
Definition candidates (h : list Organism.t) (tr : t) (onlySolvers : bool) : list ptr :=
  omap (fun g =>
          match Generation.Champion g with
          | Some p =>
              match h !! p with
              | Some o =>
                  if negb onlySolvers || Organism.IsWinner o then Some p else None
              | None => None
              end
          | None => None
          end)
       (Generations tr).

Definition fitter (h : list Organism.t) (best : option ptr) (p : ptr) : option ptr :=
  match best with
  | None => Some p
  | Some b =>
      match h !! b, h !! p with
      | Some ob, Some op =>
          if (Organism.Fitness ob <? Organism.Fitness op)%float then Some p else best
      | _, _ => best
      end
  end.

(** Modelled from the spec: [Trial.BestOrganism] (trial.go is missing).
    A linear scan for the maximum fitness, optionally filtered to the
    organisms flagged as winners; [None] is the not-found signal. *)
Definition BestOrganism (h : list Organism.t) (tr : t) (onlySolvers : bool) : option ptr :=
  fold_left (fitter h) (candidates h tr onlySolvers) None.

(** Modelled from the spec: [Trial.Encode] (trial.go is missing).  The
    generations, count-prefixed and in sequence. *)
Definition Encode (tr : t) : M unit :=
  enc_Encode (VInt (Z.of_nat (length (Generations tr)))) ;;;
  forM_ Generation.Encode (Generations tr).

(** Modelled from the spec: [Trial.Decode] (trial.go is missing).  The
    count, then that many generations; the other fields of the receiver
    stay. *)
Definition Decode (tr : t) : M t :=
  ngen <~ dec_Decode as_int ;;
  if ngen <? 0 then (fun _ => Err Panic)
  else
    gens <~ timesM (Z.to_nat ngen) Generation.Decode ;;
    ret (mk gens (WinnerGeneration tr) (Duration tr)).
End methods.
End Trial.

(** ** experiment.Experiment (experiment.go) *)
Module Experiment.

Record t : Type := mk {
  Id : Z;
  Name : string;
  RandSeed : Z;
  Trials : list Trial.t;
  MaxFitnessScore : float64
}.

(** [Experiment{}] *)
Definition zero : t := mk 0 "" 0 [] 0%float.

Section methods.
Context `{GenomeAPI}.
(** [genetics.Organisms.Less], [organismComplexity], [EmptyDuration]
    (none among the sources) and [math.Log]. *)
Variable Less : Organism.t -> Organism.t -> bool.
Variable organismComplexity : Organism.t -> Z.
Variable EmptyDuration : Z.
Variable Log : float64 -> float64.

Definition AvgTrialDuration (e : t) : Z :=
  let total :=
    fold_left (fun total t => Go.wrap64 (total + Trial.Duration t)) (Trials e) 0 in
  if 0 <? Z.of_nat (length (Trials e))
  then Z.quot total (Z.of_nat (length (Trials e)))
  else EmptyDuration.

Definition AvgEpochDuration (e : t) : Z :=
  let total :=
    fold_left (fun total t => Go.wrap64 (total + Trial.AvgEpochDuration EmptyDuration t))
              (Trials e) 0 in
  if 0 <? Z.of_nat (length (Trials e))
  then Z.quot total (Z.of_nat (length (Trials e)))
  else EmptyDuration.

Definition AvgGenerationsPerTrial (e : t) : float64 :=
  let total :=
    fold_left (fun total t =>
                 (total + Go.float64_of_int (Z.of_nat (length (Trial.Generations t))))%float)
              (Trials e) 0%float in
  if 0 <? Z.of_nat (length (Trials e))
  then (total / Go.float64_of_int (Z.of_nat (length (Trials e))))%float
  else 0%float.

(** The loop of [BestOrganism] from trial [i] on: the organisms found so
    far in [orgs], and [org.Flag = i] written through the pointer.
    [None] is a panic (a nil organism reported as found). *)
Fixpoint best_from (onlySolvers : bool) (i : Z) (trials : list Trial.t)
    (h : list Organism.t) (orgs : list ptr) : option (list Organism.t * list ptr) :=
  match trials with
  | [] => Some (h, orgs)
  | t :: rest =>
      match Trial.BestOrganism h t onlySolvers with
      | Some org =>
          match h !! org with
          | Some o =>
              best_from onlySolvers (i + 1) rest
                (<[org := Organism.set_Flag o i]> h) (orgs ++ [org])
          | None => None
          end
      | None => best_from onlySolvers (i + 1) rest h orgs
      end
  end.

(** [BestOrganism]: the store after the call and the three results. *)
Definition BestOrganism (h : list Organism.t) (e : t) (onlySolvers : bool)
    : option (list Organism.t * (option ptr * Z * bool)) :=
  match best_from onlySolvers 0 (Trials e) h [] with
  | Some (h', orgs) =>
      if 0 <? Z.of_nat (length orgs)
      then match sort_Reverse Less h' orgs with
           | Some (p0 :: _) =>
               match h' !! p0 with
               | Some o => Some (h', (Some p0, Organism.Flag o, true))
               | None => None
               end
           | _ => None
           end
      else Some (h', (None, -1, false))
  | None => None
  end.

Definition Solved (e : t) : bool :=
  existsb Trial.Solved (Trials e).

Definition TrialsSolved (e : t) : Z :=
  fold_left (fun count t => if Trial.Solved t then count + 1 else count)
            (Trials e) 0.

Definition SuccessRate (e : t) : float64 :=
  let solved := Go.float64_of_int (TrialsSolved e) in
  if 0 <? Z.of_nat (length (Trials e))
  then (solved / Go.float64_of_int (Z.of_nat (length (Trials e))))%float
  else 0%float.

(** One round of the loop of [EfficiencyScore] over the (copied) trial
    [t].  [None] is a panic: no winner generation, or no champion on
    it. *)
Definition efficiency_step (h : list Organism.t)
    (acc : option (float64 * float64 * float64)) (t : Trial.t)
    : option (float64 * float64 * float64) :=
  match acc with
  | None => None
  | Some (meanComplexity, meanFitness, count) =>
      if Trial.Solved t then
        let t' :=
          match Trial.WinnerGeneration t with
          | None => fst (Trial.WinnerStatistics t)
          | Some _ => t
          end in
        match Trial.WinnerGeneration t' with
        | Some w =>
            match Generation.ChampionComplexity organismComplexity h w,
                  Generation.Champion w with
            | Some c, Some p =>
                match h !! p with
                | Some champion =>
                    Some ((meanComplexity + Go.float64_of_int c)%float,
                          (meanFitness + Organism.Fitness champion)%float,
                          (count + 1)%float)
                | None => None
                end
            | _, _ => None
            end
        | None => None
        end
      else acc
  end.

Definition penaltyScore (e : t) (meanComplexity : float64) : float64 :=
  (Go.Seconds (AvgEpochDuration e) * 1000.0 * AvgGenerationsPerTrial e * meanComplexity)%float.

Definition EfficiencyScore (h : list Organism.t) (e : t) : option float64 :=
  let means :=
    if 1 <? Z.of_nat (length (Trials e)) then
      match fold_left (efficiency_step h) (Trials e) (Some (0%float, 0%float, 0%float)) with
      | Some (meanComplexity, meanFitness, count) =>
          Some ((meanComplexity / count)%float, (meanFitness / count)%float)
      | None => None
      end
    else Some (0%float, 0%float) in
  match means with
  | None => None
  | Some (meanComplexity, meanFitness) =>
      let fitnessScore :=
        if (0 <? MaxFitnessScore e)%float
        then (meanFitness / MaxFitnessScore e * 100)%float
        else meanFitness in
      let score := penaltyScore e meanComplexity in
      Some (if (0 <? score)%float
            then
              let successRate := SuccessRate e in
              let logPenaltyScore := Log score in
              (successRate * fitnessScore / logPenaltyScore)%float
            else score)
  end.

Definition Encode (e : t) : M unit :=
  enc_Encode (VInt (Id e)) ;;;
  enc_Encode (VString (Name e)) ;;;
  enc_Encode (VInt (Z.of_nat (length (Trials e)))) ;;;
  forM_ Trial.Encode (Trials e).

(** [Decode] into the receiver [e]: [RandSeed] and [MaxFitnessScore] are
    not read from the stream and stay as they were.  A negative trial
    count makes [make([]Trial, tNum)] panic; so does a count beyond what
    can be allocated, a limit of the machine that is not modelled. *)
Definition Decode (e : t) : M t :=
  id <~ dec_Decode as_int ;;
  name <~ dec_Decode as_string ;;
  tNum <~ dec_Decode as_int ;;
  if tNum <? 0 then (fun _ => Err Panic)
  else
    trials <~ timesM (Z.to_nat tNum) (Trial.Decode Trial.zero) ;;
    ret (mk id name (RandSeed e) trials (MaxFitnessScore e)).
(** The loop of [EpochsPerTrial] from trial [i] on: [x[i] = float64(len(t.Generations))]. *)
Fixpoint epochs_from (i : nat) (trials : list Trial.t) (x : list float64) : list float64 :=
  match trials with
  | [] => x
  | t :: rest =>
      epochs_from (S i) rest
        (<[i := Go.float64_of_int (Z.of_nat (length (Trial.Generations t)))]> x)
  end.

Definition EpochsPerTrial (e : t) : list float64 :=
  let x := replicate (length (Trials e)) 0%float in
  epochs_from 0 (Trials e) x.

(** One round of the loop of [AvgWinnerStatistics]: the four totals and the
    count.  [None] stands for a solved trial without a winner generation. *)
Definition winner_step (acc : option (Z * Z * Z * Z * Z)) (t : Trial.t)
    : option (Z * Z * Z * Z * Z) :=
  match acc with
  | None => None
  | Some (totalNodes, totalGenes, totalEvals, totalDiversity, count) =>
      if Trial.Solved t then
        match snd (Trial.WinnerStatistics t) with
        | Some (nodes, genes, evals, diversity) =>
            Some (Go.wrap64 (totalNodes + nodes), Go.wrap64 (totalGenes + genes),
                  Go.wrap64 (totalEvals + evals), Go.wrap64 (totalDiversity + diversity),
                  Go.wrap64 (count + 1))
        | None => None
        end
      else acc
  end.

Definition AvgWinnerStatistics (e : t) : option (float64 * float64 * float64 * float64) :=
  match fold_left winner_step (Trials e) (Some (0, 0, 0, 0, 0)) with
  | Some (totalNodes, totalGenes, totalEvals, totalDiversity, count) =>
      if count =? 0 then Some ((-1)%float, (-1)%float, (-1)%float, (-1)%float)
      else
        Some ((Go.float64_of_int totalNodes / Go.float64_of_int count)%float,
              (Go.float64_of_int totalGenes / Go.float64_of_int count)%float,
              (Go.float64_of_int totalEvals / Go.float64_of_int count)%float,
              (Go.float64_of_int totalDiversity / Go.float64_of_int count)%float)
  | None => None
  end.
End methods.
End Experiment.

(** * The snake game (snake/snake.go) *)

(** [Action]: a turn (or no turn) command for the snake. *)
Inductive Action : Type := DoNothing | RotateLeft | RotateRight.

(** [GameResult]: the current state of the game. *)
Inductive GameResult : Type := Running | GameOver | Winner.

Module Coordinates.
Record t : Type := mk {
  Row : Z;
  Col : Z
}.

(** [==] on the struct. *)
Definition eqb (a b : t) : bool := (Row a =? Row b) && (Col a =? Col b).
End Coordinates.

Module Snake.
Record t : Type := mk {
  Body : list Coordinates.t;
  Direction : Coordinates.t
}.

Definition NewSnake (startRow startCol : Z) : t :=
  mk [Coordinates.mk startRow startCol] (Coordinates.mk 0 1).

(** [s.Body[0]]: out of range on an empty body. *)
Definition Head (s : t) : option Coordinates.t := Body s !! 0%nat.

Definition Move (s : t) (grow : bool) : option t :=
  match Head s with
  | None => None
  | Some head =>
      let newHead :=
        Coordinates.mk
          (Go.wrap64 (Coordinates.Row head + Coordinates.Row (Direction s)))
          (Go.wrap64 (Coordinates.Col head + Coordinates.Col (Direction s))) in
      let body := newHead :: Body s in
      Some (mk (if grow then body else take (length body - 1) body) (Direction s))
  end.

Definition ChangeDirection (s : t) (action : Action) : t :=
  match action with
  | RotateLeft =>
      mk (Body s)
         (Coordinates.mk (Go.wrap64 (- Coordinates.Col (Direction s)))
                         (Coordinates.Row (Direction s)))
  | RotateRight =>
      mk (Body s)
         (Coordinates.mk (Coordinates.Col (Direction s))
                         (Go.wrap64 (- Coordinates.Row (Direction s))))
  | DoNothing => s
  end.

Definition Contains (s : t) (coord : Coordinates.t) : bool :=
  existsb (fun part => Coordinates.eqb part coord) (Body s).
End Snake.

(** What a call that draws random numbers comes to: a result and the draws
    left, a panic, or a loop that is still running when the given draws are
    used up. *)
Inductive outcome (A : Type) : Type :=
| Done (a : A) (rand : list Z)
| Panics
| Pending.
Arguments Done {A} a rand.
Arguments Panics {A}.
Arguments Pending {A}.

(** [GenerateFood]: [rand] holds the results of the calls of [rand.Intn], in
    the order of the calls: a row, then a column, for each round of the
    loop.  [rand.Intn(n)] panics for [n <= 0]. *)
Fixpoint GenerateFood (width height : Z) (snake : Snake.t) (rand : list Z)
    : outcome Coordinates.t :=
  if height <=? 0 then Panics
  else
    match rand with
    | [] => Pending
    | row :: rand1 =>
        if width <=? 0 then Panics
        else
          match rand1 with
          | [] => Pending
          | col :: rand2 =>
              let food := Coordinates.mk row col in
              if negb (Snake.Contains snake food) then Done food rand2
              else GenerateFood width height snake rand2
          end
    end.

Module Game.
Record t : Type := mk {
  Width : Z;
  Height : Z;
  Snake : Snake.t;
  Food : Coordinates.t;
  GameState : GameResult
}.

Definition NewGame (width height : Z) (rand : list Z) : outcome t :=
  let snake := Snake.NewSnake (Z.quot height 2) (Z.quot width 2) in
  match GenerateFood width height snake rand with
  | Done food rand' => Done (mk width height snake food Running) rand'
  | Panics => Panics
  | Pending => Pending
  end.

Definition Update (g : t) (action : Action) (rand : list Z) : outcome t :=
  match GameState g with
  | Running =>
      let snake := Snake.ChangeDirection (Snake g) action in
      match Snake.Head snake with
      | None => Panics
      | Some head =>
          let newHead :=
            Coordinates.mk
              (Go.wrap64 (Coordinates.Row head + Coordinates.Row (Snake.Direction snake)))
              (Go.wrap64 (Coordinates.Col head + Coordinates.Col (Snake.Direction snake))) in
          if (Coordinates.Row newHead <? 0) || (Height g <=? Coordinates.Row newHead)
             || (Coordinates.Col newHead <? 0) || (Width g <=? Coordinates.Col newHead)
          then Done (mk (Width g) (Height g) snake (Food g) GameOver) rand
          else
            let grow := Coordinates.eqb newHead (Food g) in
            let collision :=
              if grow
              then existsb (fun part => Coordinates.eqb part newHead) (Snake.Body snake)
              else
                if 1 <? Z.of_nat (length (Snake.Body snake))
                then existsb (fun part => Coordinates.eqb part newHead)
                             (take (length (Snake.Body snake) - 1) (Snake.Body snake))
                else false in
            if collision
            then Done (mk (Width g) (Height g) snake (Food g) GameOver) rand
            else
              match Snake.Move snake grow with
              | None => Panics
              | Some snake' =>
                  if grow
                  then
                    match GenerateFood (Width g) (Height g) snake' rand with
                    | Done food rand' =>
                        Done (mk (Width g) (Height g) snake' food Running) rand'
                    | Panics => Panics
                    | Pending => Pending
                    end
                  else Done (mk (Width g) (Height g) snake' (Food g) Running) rand
              end
      end
  | _ => Done g rand
  end.
End Game.

(** * Vectors (vector/vector.go) *)

Module Vector.
(** [Vector]: an n-dimensional vector. *)
Record t : Type := mk {
  Values : list float64
}.

Definition NewVector (values : list float64) : t := mk values.

(** [errors.New(msg)] *)
Definition errors_New (msg : string) : error := Failure msg.

Definition Add (v other : t) : result t :=
  if negb (length (Values v) =? length (Values other))%nat
  then Err (errors_New "vectors must have the same length")
  else Ok (NewVector (zip_with PrimFloat.add (Values v) (Values other))).

Definition Subtract (v other : t) : result t :=
  if negb (length (Values v) =? length (Values other))%nat
  then Err (errors_New "vectors must have the same length")
  else Ok (NewVector (zip_with PrimFloat.sub (Values v) (Values other))).

(** Each product and each sum is rounded on its own, as the compiler
    does where it does not fuse them into one multiply-add. *)
Definition Dot (v other : t) : result float64 :=
  if negb (length (Values v) =? length (Values other))%nat
  then Err (errors_New "vectors must have the same length")
  else Ok (fold_left (fun sum '(a, b) => (sum + a * b)%float)
                     (zip (Values v) (Values other)) 0%float).

Definition Scale (v : t) (scalar : float64) : t :=
  NewVector ((fun val => (val * scalar)%float) <$> Values v).

Definition Norm (v : t) : float64 :=
  PrimFloat.sqrt (fold_left (fun sum val => (sum + val * val)%float) (Values v) 0%float).

Definition Normalize (v : t) : result t :=
  let norm := Norm v in
  if (norm =? 0)%float
  then Err (errors_New "cannot normalize a zero vector")
  else Ok (Scale v (1 / norm)).
End Vector.

(** * Properties *)

(** A concrete genome collaborator for examples: a genome is its identity and
    its plain text; the reader rebuilds it from the two and rejects an empty
    text. *)
Record TextGenome : Type := mkTextGenome {
  text_id : Z;
  text_body : list Byte.byte
}.

Definition textGenome : GenomeAPI := {|
  Genome := TextGenome;
  Genome_Id := text_id;
  Genome_Write := fun g => Ok (text_body g);
  ReadGenome := fun data id =>
    match data with
    | [] => Err (Failure "empty genome")
    | _ :: _ => Ok (mkTextGenome id data)
    end
|}.

(** Organisms ordered by fitness alone. *)
Definition by_fitness `{GenomeAPI} (a b : Organism.t) : bool :=
  (Organism.Fitness a <? Organism.Fitness b)%float.

(** An error that is [errors.Wrap(_, "failed to decode <field>")]. *)
Definition names_field (e : error) (field : string) : Prop :=
  exists cause, e = Wrap cause ("failed to decode " +:+ field).

(** The recorded champion of a generation as a reader sees it: the organism
    behind the pointer. *)
Definition champion_record `{GenomeAPI} (h : list Organism.t) (g : Generation.t)
    : option Organism.t :=
  match Generation.Champion g with
  | Some p => h !! p
  | None => None
  end.

Section Codec.
Context `{GenomeAPI}.

Lemma fields_set_Champion (g : Generation.t) (c : option ptr) :
  Generation.fields (Generation.set_Champion g c) = Generation.fields g.
Proof. reflexivity. Qed.

(** What [Encode] does before it looks at the champion. *)
Lemma Encode_fields (g : Generation.t) (h : list Organism.t) (w : list Value) :
  Generation.Encode g (mkStore h w) =
  match Generation.Champion g with
  | Some p => Generation.encodeOrganism p (mkStore h (w ++ Generation.fields g))
  | None => Ok (tt, mkStore h (w ++ Generation.fields g))
  end.
Proof.
  unfold Generation.Encode, Generation.fields, bind, enc_Encode; cbn.
  rewrite <- !app_assoc; cbn.
  destruct (Generation.Champion g); reflexivity.
Qed.

(** What [Decode] does on a stream that starts with twelve well-typed
    fields. *)
Lemma Decode_fields (g : Generation.t) (h : list Organism.t) (rest : list Value) :
  Generation.Decode (mkStore h (Generation.fields g ++ rest)) =
  match Generation.decodeOrganism (mkStore h rest) with
  | Ok (p, st) => Ok (Generation.set_Champion g (Some p), st)
  | Err e => Err e
  end.
Proof.
  unfold Generation.Decode, Generation.fields, bind, wrapped, dec_Decode; cbn.
  destruct (Generation.decodeOrganism (mkStore h rest)) as [[p st]|e]; reflexivity.
Qed.

(** C1. [Generation.Encode] emits a champion record only when the champion
    is non-nil: with a nil champion it writes the twelve fields and nothing
    else, with a champion [p] it goes on with [encodeOrganism p].
    [Generation.Decode] always runs the organism decoder after the twelve
    fields; so on exactly what [Encode] wrote for a nil champion the
    organism decoder is invoked on an exhausted stream and fails at its
    first field. *)
Theorem Encode_champion_optional_Decode_champion_always
    (g : Generation.t) (h : list Organism.t) (w rest : list Value) :
  Generation.Encode (Generation.set_Champion g None) (mkStore h w)
    = Ok (tt, mkStore h (w ++ Generation.fields g))
  /\ (forall p,
        Generation.Encode (Generation.set_Champion g (Some p)) (mkStore h w)
        = Generation.encodeOrganism p (mkStore h (w ++ Generation.fields g)))
  /\ Generation.Decode (mkStore h (Generation.fields g ++ rest))
     = (org <~ Generation.decodeOrganism ;;
        ret (Generation.set_Champion g (Some org))) (mkStore h rest)
  /\ match Generation.Encode (Generation.set_Champion g None) (mkStore h []) with
     | Ok (_, st) => Generation.Decode st
     | Err e => Err e
     end = Err (Wrap EOF "failed to decode Fitness").
Proof.
  split; [|split; [|split]].
  - rewrite Encode_fields. reflexivity.
  - intros p. rewrite Encode_fields. reflexivity.
  - rewrite Decode_fields. unfold bind, ret.
    destruct (Generation.decodeOrganism (mkStore h rest)) as [[p st]|e]; reflexivity.
  - rewrite Encode_fields. cbn [Generation.Champion Generation.set_Champion].
    rewrite fields_set_Champion, app_nil_l.
    rewrite <- (app_nil_r (Generation.fields g)).
    rewrite Decode_fields. reflexivity.
Qed.

(** C6, at the failing inputs.  A stream on which the first nine fields of a
    generation decode and the tenth, WinnerGenes, does not (it is a bool,
    or the stream ends): [Decode] aborts, and the error it returns names
    WinnerNodes, not WinnerGenes.  Likewise in [decodeOrganism] a failure
    on ExpectedOffspring, the fourth value, or on Error, the fifth, is
    reported as a failure to decode Generation. *)
Theorem Decode_misnames_failing_field
    (g : Generation.t) (o : Organism.t) (h : list Organism.t) (rest : list Value) :
  let nine := take 9 (Generation.fields g) in
  let three := [ VFloat (Organism.Fitness o); VBool (Organism.IsWinner o);
                 VInt (Organism.Generation o) ] in
  (Generation.Decode (mkStore h (nine ++ VBool true :: rest))
     = Err (Wrap Mismatch "failed to decode WinnerNodes")
   /\ Generation.Decode (mkStore h nine)
     = Err (Wrap EOF "failed to decode WinnerNodes")
   /\ ~ names_field (Wrap Mismatch "failed to decode WinnerNodes") "WinnerGenes"
   /\ ~ names_field (Wrap EOF "failed to decode WinnerNodes") "WinnerGenes")
  /\ (Generation.decodeOrganism (mkStore h (three ++ VBool true :: rest))
     = Err (Wrap Mismatch "failed to decode Generation")
   /\ Generation.decodeOrganism
        (mkStore h (three ++ VFloat (Organism.ExpectedOffspring o) :: VBool true :: rest))
     = Err (Wrap Mismatch "failed to decode Generation")
   /\ ~ names_field (Wrap Mismatch "failed to decode Generation") "ExpectedOffspring"
   /\ ~ names_field (Wrap Mismatch "failed to decode Generation") "Error").
Proof.
  cbv zeta.
  repeat split; try reflexivity;
    intros [cause Hc]; cbv in Hc; discriminate Hc.
Qed.
End Codec.


Section Statistics.
Context `{GenomeAPI}.
Variable Less : Organism.t -> Organism.t -> bool.
Variable organismComplexity : Organism.t -> Z.

Lemma insert_sorted_Permutation (h : list Organism.t) (a : ptr) (l : list ptr) :
  insert_sorted Less h a l ≡ₚ a :: l.
Proof.
  induction l as [|b l IH]; cbn; [done|].
  destruct (reverse_less Less h b a); [|done].
  rewrite IH. apply Permutation_swap.
Qed.

Lemma sort_Reverse_Permutation (h : list Organism.t) (l l' : list ptr) :
  sort_Reverse Less h l = Some l' -> l' ≡ₚ l.
Proof.
  unfold sort_Reverse.
  destruct (forallb _ l).
  - intros [= <-]. induction l as [|a l IH]; cbn; [done|].
    rewrite insert_sorted_Permutation. by rewrite IH.
  - destruct l as [|a [|b l]]; intros [= <-]; done.
Qed.

(** The sort succeeds on a species whose organisms all exist. *)
Lemma sort_Reverse_total (h : list Organism.t) (l : list ptr) :
  Forall (fun p => is_Some (h !! p)) l -> is_Some (sort_Reverse Less h l).
Proof.
  intros Hl. unfold sort_Reverse.
  replace (forallb (fun p => bool_decide (is_Some (h !! p))) l) with true; [eauto|].
  symmetry. apply forallb_forall. intros p Hp.
  apply bool_decide_eq_true. rewrite Forall_forall in Hl.
  apply Hl. by apply list_elem_of_In.
Qed.

(** The loop writes its statistics in place: the vectors keep the length they
    were made with and the diversity stays. *)
Lemma fill_from_shape (h : list Organism.t) (species : list Species.t) :
  forall (i : nat) (maxFitness : float64) (g g' : Generation.t) (species' : list Species.t),
    Generation.fill_from Less organismComplexity h i species maxFitness g = Some (g', species') ->
    length (Generation.Fitness g') = length (Generation.Fitness g)
    /\ length (Generation.Age g') = length (Generation.Age g)
    /\ length (Generation.Complexity g') = length (Generation.Complexity g)
    /\ Generation.Diversity g' = Generation.Diversity g.
Proof.
  induction species as [|sp rest IH]; intros i mf g g' species' Hfill; cbn in Hfill.
  - by injection Hfill as <- _.
  - destruct (sort_Reverse Less h (Species.Organisms sp)) as [[|p0 sorted]|]; try done.
    destruct (h !! p0) as [org0|]; try done.
    destruct (negb _); [destruct (PrimFloat.ltb _ _)|];
      (destruct (Generation.fill_from _ _ _ _ _ _ _) as [[g2 rest2]|] eqn:Hrec;
       [|done]; injection Hfill as <- _;
       apply IH in Hrec; cbn in Hrec; rewrite !length_insert in Hrec; exact Hrec).
Qed.

Lemma fill_from_total (h : list Organism.t) (species : list Species.t) :
  Forall (fun sp => Species.Organisms sp <> []
                    /\ Forall (fun p => is_Some (h !! p)) (Species.Organisms sp)) species ->
  forall (i : nat) (maxFitness : float64) (g : Generation.t),
    is_Some (Generation.fill_from Less organismComplexity h i species maxFitness g).
Proof.
  induction 1 as [|sp rest [Hne Hvalid] _ IH]; intros i mf g; cbn; [eauto|].
  destruct (sort_Reverse_total h _ Hvalid) as [sorted Hsort]. rewrite Hsort.
  pose proof (sort_Reverse_Permutation _ _ _ Hsort) as Hperm.
  destruct sorted as [|p0 sorted].
  { apply Permutation_nil_l in Hperm. congruence. }
  assert (Hp0 : is_Some (h !! p0)).
  { rewrite Forall_forall in Hvalid. apply Hvalid. rewrite <- Hperm. left. }
  destruct Hp0 as [org0 ->].
  destruct (negb _); [destruct (PrimFloat.ltb _ _)|];
    (match goal with
     | |- context [Generation.fill_from _ _ _ ?i' _ ?mf' ?g'] =>
         destruct (IH i' mf' g') as [[g2 rest2] ->]
     end; eauto).
Qed.

(** C9. For every population snapshot, whenever [FillPopulationStatistics]
    returns, the generation has [len(Fitness) = len(Age) = len(Complexity) =
    Diversity], and [Diversity] is the number of species of the snapshot; and
    it does return when every species has an organism and no organism pointer
    is nil. *)
Theorem FillPopulationStatistics_lengths
    (h : list Organism.t) (g : Generation.t) (pop : Population.t) :
  (forall g' pop',
     Generation.FillPopulationStatistics Less organismComplexity h g pop = Some (g', pop') ->
     Z.of_nat (length (Generation.Fitness g')) = Generation.Diversity g'
     /\ Z.of_nat (length (Generation.Age g')) = Generation.Diversity g'
     /\ Z.of_nat (length (Generation.Complexity g')) = Generation.Diversity g'
     /\ Generation.Diversity g' = Z.of_nat (length (Population.Species pop)))
  /\ (Forall (fun sp => Species.Organisms sp <> []
                        /\ Forall (fun p => is_Some (h !! p)) (Species.Organisms sp))
             (Population.Species pop) ->
      is_Some (Generation.FillPopulationStatistics Less organismComplexity h g pop)).
Proof.
  unfold Generation.FillPopulationStatistics. split.
  - intros g' pop' Hfill.
    destruct (Generation.fill_from _ _ _ _ _ _ _) as [[g2 species2]|] eqn:Hloop; [|done].
    injection Hfill as <- _.
    apply fill_from_shape in Hloop. cbn in Hloop. rewrite !length_replicate in Hloop.
    destruct Hloop as (-> & -> & -> & ->). done.
  - intros Hpop.
    destruct (fill_from_total h _ Hpop 0%nat (Go.float64_of_int Go.minInt64)
                (Generation.reset_statistics g (length (Population.Species pop))))
      as [[g2 species2] ->].
    eauto.
Qed.

(** Where the champion after the loop comes from: it is the one the
    generation had, or a pointer taken from a species of the population. *)
Lemma fill_from_champion (h : list Organism.t) (species : list Species.t) :
  forall (i : nat) (maxFitness : float64) (g g' : Generation.t) (species' : list Species.t),
    Generation.fill_from Less organismComplexity h i species maxFitness g = Some (g', species') ->
    Generation.Champion g' = Generation.Champion g
    \/ exists p sp, Generation.Champion g' = Some p /\ sp ∈ species
                    /\ p ∈ Species.Organisms sp /\ is_Some (h !! p).
Proof.
  induction species as [|sp rest IH]; intros i mf g g' species' Hfill; cbn in Hfill.
  - injection Hfill as <- _. by left.
  - destruct (sort_Reverse Less h (Species.Organisms sp)) as [[|p0 sorted]|] eqn:Hsort;
      try done.
    apply sort_Reverse_Permutation in Hsort.
    destruct (h !! p0) as [org0|] eqn:Hp0; try done.
    assert (Hin : p0 ∈ Species.Organisms sp) by (rewrite <- Hsort; left).
    destruct (negb _); [destruct (PrimFloat.ltb _ _)|];
      (destruct (Generation.fill_from _ _ _ _ _ _ _) as [[g2 rest2]|] eqn:Hrec;
       [|done]; injection Hfill as <- _;
       apply IH in Hrec as [Hsame|(p & sp' & Hp & Hsp & Hmem & Hsome)];
       [|right; exists p, sp'; split_and!; [done|by right|done|done]]).
    + right. exists p0, sp. split_and!; [done|by left|done|by rewrite Hp0].
    + by left.
    + by left.
Qed.

(** C7, as amended.  After [FillPopulationStatistics] the champion of the
    generation is a pointer: the one the generation already had, or one taken
    from a species of the population.  It is not a copy: a later write to an
    organism [p] of the store shows through the generation's champion exactly
    when [p] is the champion's address. *)
Theorem FillPopulationStatistics_champion_is_shared
    (h : list Organism.t) (g g' : Generation.t) (pop pop' : Population.t) :
  Generation.FillPopulationStatistics Less organismComplexity h g pop = Some (g', pop') ->
  (Generation.Champion g' = Generation.Champion g
   \/ exists p sp, Generation.Champion g' = Some p /\ sp ∈ Population.Species pop
                   /\ p ∈ Species.Organisms sp /\ is_Some (h !! p))
  /\ (forall (p : ptr) (o' : Organism.t),
        is_Some (h !! p) ->
        champion_record (<[p := o']> h) g'
        = if bool_decide (Generation.Champion g' = Some p) then Some o'
          else champion_record h g').
Proof.
  unfold Generation.FillPopulationStatistics. intros Hfill.
  destruct (Generation.fill_from _ _ _ _ _ _ _) as [[g2 species2]|] eqn:Hloop; [|done].
  injection Hfill as <- _. split.
  - apply fill_from_champion in Hloop. exact Hloop.
  - intros p o' Hp. unfold champion_record.
    destruct (Generation.Champion g2) as [q|]; [|by rewrite bool_decide_eq_false_2].
    case_bool_decide as Hq.
    + injection Hq as ->. apply list_lookup_insert_eq. by apply lookup_lt_is_Some.
    + apply list_lookup_insert_ne. congruence.
Qed.
End Statistics.

Section BestOrganism.
Context `{GenomeAPI}.
Variable Less : Organism.t -> Organism.t -> bool.

(** Two organisms that differ at most in [Flag]. *)
Definition modulo_Flag (o o' : Organism.t) : Prop :=
  Organism.set_Flag o 0 = Organism.set_Flag o' 0.

Lemma modulo_Flag_set_Flag (o o' : Organism.t) (i : Z) :
  modulo_Flag o o' -> modulo_Flag o (Organism.set_Flag o' i).
Proof. unfold modulo_Flag. intros ->. reflexivity. Qed.

Lemma modulo_Flag_fields (o o' : Organism.t) :
  modulo_Flag o o' ->
  Organism.Fitness o = Organism.Fitness o' /\ Organism.IsWinner o = Organism.IsWinner o'.
Proof. unfold modulo_Flag, Organism.set_Flag. intros [= -> -> _ _ _ _ _]. done. Qed.

Lemma modulo_Flag_lookup (h h' : list Organism.t) (p : ptr) :
  Forall2 modulo_Flag h h' ->
  match h !! p, h' !! p with
  | Some o, Some o' => modulo_Flag o o'
  | None, None => True
  | _, _ => False
  end.
Proof.
  intros Hh. revert p. induction Hh as [|o o' h h' Ho _ IH]; intros [|p]; cbn; try done.
  apply IH.
Qed.

Lemma modulo_Flag_insert (h h' : list Organism.t) (p : ptr) (o : Organism.t) (i : Z) :
  Forall2 modulo_Flag h h' -> h' !! p = Some o ->
  Forall2 modulo_Flag h (<[p := Organism.set_Flag o i]> h').
Proof.
  intros Hh Hp.
  pose proof (modulo_Flag_lookup h h' p Hh) as Hl. rewrite Hp in Hl.
  destruct (h !! p) as [o0|] eqn:Ho0; [|done].
  rewrite <- (list_insert_id h p o0 Ho0).
  apply Forall2_insert; [done|]. by apply modulo_Flag_set_Flag.
Qed.

(** A scan of a trial reads fitness and winner flags only, so it does not see
    the writes to [Flag]. *)
Lemma candidates_modulo_Flag (h h' : list Organism.t) (tr : Trial.t) (b : bool) :
  Forall2 modulo_Flag h h' -> Trial.candidates h tr b = Trial.candidates h' tr b.
Proof.
  intros Hh. unfold Trial.candidates.
  induction (Trial.Generations tr) as [|g gs IH]; cbn; [done|].
  rewrite IH. destruct (Generation.Champion g) as [p|]; [|done].
  pose proof (modulo_Flag_lookup h h' p Hh) as Hl.
  destruct (h !! p) as [o|], (h' !! p) as [o'|]; try done.
  apply modulo_Flag_fields in Hl as [_ ->]. done.
Qed.

Lemma fitter_modulo_Flag (h h' : list Organism.t) (best : option ptr) (p : ptr) :
  Forall2 modulo_Flag h h' -> Trial.fitter h best p = Trial.fitter h' best p.
Proof.
  intros Hh. unfold Trial.fitter. destruct best as [b|]; [|done].
  pose proof (modulo_Flag_lookup h h' b Hh) as Hb.
  pose proof (modulo_Flag_lookup h h' p Hh) as Hp.
  destruct (h !! b) as [ob|], (h' !! b) as [ob'|]; try done;
    destruct (h !! p) as [op|], (h' !! p) as [op'|]; try done.
  apply modulo_Flag_fields in Hb as [-> _].
  apply modulo_Flag_fields in Hp as [-> _]. done.
Qed.

Lemma Trial_BestOrganism_modulo_Flag (h h' : list Organism.t) (tr : Trial.t) (b : bool) :
  Forall2 modulo_Flag h h' -> Trial.BestOrganism h tr b = Trial.BestOrganism h' tr b.
Proof.
  intros Hh. unfold Trial.BestOrganism.
  rewrite (candidates_modulo_Flag h h' tr b Hh).
  generalize (@None ptr).
  induction (Trial.candidates h' tr b) as [|p ps IH]; intros best; cbn; [done|].
  rewrite (fitter_modulo_Flag h h' best p Hh). apply IH.
Qed.

(** The loop of [BestOrganism], started at trial number [i] on a store [hk]
    that differs from [h] in flags only: an organism that is the best of
    trial [i + k] and of no later trial ends with [Flag = i + k], and an
    organism that is the best of no trial is left as it was. *)
Lemma best_from_Flag (b : bool) (h : list Organism.t) (trials : list Trial.t) :
  forall (i : Z) (hk h' : list Organism.t) (orgs orgs' : list ptr),
    Forall2 modulo_Flag h hk ->
    Experiment.best_from b i trials hk orgs = Some (h', orgs') ->
    (forall (k : nat) (tr : Trial.t) (p : ptr),
       trials !! k = Some tr ->
       Trial.BestOrganism h tr b = Some p ->
       (forall (j : nat) (tr' : Trial.t),
          (k < j)%nat -> trials !! j = Some tr' -> Trial.BestOrganism h tr' b <> Some p) ->
       exists o, hk !! p = Some o /\ h' !! p = Some (Organism.set_Flag o (i + Z.of_nat k)))
    /\ (forall p : ptr,
          (forall tr, tr ∈ trials -> Trial.BestOrganism h tr b <> Some p) ->
          h' !! p = hk !! p).
Proof.
  induction trials as [|tr rest IH]; intros i hk h' orgs orgs' Hh Hloop; cbn in Hloop.
  - injection Hloop as <- _. split; [intros k tr p Hk; done|done].
  - rewrite <- (Trial_BestOrganism_modulo_Flag h hk tr b Hh) in Hloop.
    destruct (Trial.BestOrganism h tr b) as [org|] eqn:Hbest.
    + destruct (hk !! org) as [o|] eqn:Horg; [|done].
      apply IH in Hloop as [Hflag Hframe]; [|by apply modulo_Flag_insert].
      split.
      * intros [|k] tr0 p Hk Hp Hlater; cbn in Hk.
        -- injection Hk as <-. rewrite Hbest in Hp. injection Hp as <-.
           exists o. split; [done|].
           rewrite Hframe.
           ++ rewrite Z.add_0_r. apply list_lookup_insert_eq. by eapply lookup_lt_Some.
           ++ intros tr' Htr'. apply list_elem_of_lookup in Htr' as [j Hj].
              apply (Hlater (S j)); [lia|done].
        -- destruct (Hflag k tr0 p Hk Hp) as (o1 & Ho1 & Hp').
           { intros j tr' Hj Hj'. apply (Hlater (S j)); [lia|done]. }
           destruct (decide (org = p)) as [->|Hne].
           ++ rewrite list_lookup_insert_eq in Ho1 by (by eapply lookup_lt_Some).
              injection Ho1 as <-. exists o. split; [done|].
              rewrite Hp'. f_equal. unfold Organism.set_Flag; cbn. f_equal. lia.
           ++ rewrite list_lookup_insert_ne in Ho1 by done.
              exists o1. split; [done|]. rewrite Hp'. do 2 f_equal. lia.
      * intros p Hp. rewrite Hframe.
        -- apply list_lookup_insert_ne. intros ->. apply (Hp tr); [left|done].
        -- intros tr' Htr'. apply Hp. by right.
    + apply IH in Hloop as [Hflag Hframe]; [|done].
      split.
      * intros [|k] tr0 p Hk Hp Hlater; cbn in Hk.
        -- injection Hk as <-. congruence.
        -- destruct (Hflag k tr0 p Hk Hp) as (o1 & Ho1 & Hp').
           { intros j tr' Hj Hj'. apply (Hlater (S j)); [lia|done]. }
           exists o1. split; [done|]. rewrite Hp'. do 2 f_equal. lia.
      * intros p Hp. apply Hframe. intros tr' Htr'. apply Hp. by right.
Qed.

(** C10. [BestOrganism] writes to the store it reads: for every trial [k]
    whose best organism [p] is found (and is not found again by a later
    trial, which would overwrite the flag once more), the record behind [p]
    ends as the original one with [Flag] overwritten by [k]; organisms that
    are the best of no trial are not touched. *)
Theorem BestOrganism_overwrites_Flag
    (h h' : list Organism.t) (e : Experiment.t) (onlySolvers : bool)
    (r : option ptr * Z * bool) :
  Experiment.BestOrganism Less h e onlySolvers = Some (h', r) ->
  (forall (k : nat) (tr : Trial.t) (p : ptr),
     Experiment.Trials e !! k = Some tr ->
     Trial.BestOrganism h tr onlySolvers = Some p ->
     (forall (j : nat) (tr' : Trial.t),
        (k < j)%nat -> Experiment.Trials e !! j = Some tr' ->
        Trial.BestOrganism h tr' onlySolvers <> Some p) ->
     exists o, h !! p = Some o /\ h' !! p = Some (Organism.set_Flag o (Z.of_nat k)))
  /\ (forall p : ptr,
        (forall tr, tr ∈ Experiment.Trials e -> Trial.BestOrganism h tr onlySolvers <> Some p) ->
        h' !! p = h !! p).
Proof.
  unfold Experiment.BestOrganism. intros Hbest.
  destruct (Experiment.best_from onlySolvers 0 (Experiment.Trials e) h [])
    as [[h1 orgs]|] eqn:Hloop; [|done].
  assert (h1 = h') as ->.
  { destruct (0 <? Z.of_nat (length orgs)).
    - destruct (sort_Reverse Less h1 orgs) as [[|p0 ?]|]; try done.
      destruct (h1 !! p0); [|done]. by injection Hbest as ->.
    - by injection Hbest as ->. }
  apply (best_from_Flag onlySolvers h) in Hloop; [|by apply Forall_Forall2_diag, Forall_true].
  exact Hloop.
Qed.

(** With [onlySolvers], a trial none of whose champions is flagged as a
    winner has no candidate, whatever the fitness of its champions. *)
Lemma candidates_no_winner (h : list Organism.t) (tr : Trial.t) :
  (forall g p o, g ∈ Trial.Generations tr -> Generation.Champion g = Some p ->
                 h !! p = Some o -> Organism.IsWinner o = false) ->
  Trial.candidates h tr true = [].
Proof.
  unfold Trial.candidates.
  induction (Trial.Generations tr) as [|g gs IH]; intros Hno; [done|].
  specialize (IH (fun g' p o Hg' => Hno g' p o (list_elem_of_further _ _ _ Hg'))).
  cbn in *. rewrite IH.
  destruct (Generation.Champion g) as [p|] eqn:Hp; [|done].
  destruct (h !! p) as [o|] eqn:Ho; [|done].
  rewrite (Hno g p o); [done|by left|done|done].
Qed.

Lemma best_from_not_found (b : bool) (h : list Organism.t) (trials : list Trial.t) :
  (forall tr, tr ∈ trials -> Trial.BestOrganism h tr b = None) ->
  forall (i : Z) (orgs : list ptr),
    Experiment.best_from b i trials h orgs = Some (h, orgs).
Proof.
  induction trials as [|tr rest IH]; intros Hnone i orgs; cbn; [done|].
  rewrite (Hnone tr) by left. apply IH. intros tr' Htr'. apply Hnone. by right.
Qed.

(** C8. When no trial holds a champion flagged as a winner,
    [BestOrganism(onlySolvers = true)] returns the not-found signal
    [(nil, -1, false)] and leaves the store alone, whatever the fitness of
    the organisms that are not winners. *)
Theorem BestOrganism_onlySolvers_not_found (h : list Organism.t) (e : Experiment.t) :
  (forall tr g p o,
     tr ∈ Experiment.Trials e -> g ∈ Trial.Generations tr ->
     Generation.Champion g = Some p -> h !! p = Some o ->
     Organism.IsWinner o = false) ->
  Experiment.BestOrganism Less h e true = Some (h, (None, -1, false)).
Proof.
  intros Hno. unfold Experiment.BestOrganism.
  rewrite best_from_not_found; [done|].
  intros tr Htr. unfold Trial.BestOrganism.
  rewrite candidates_no_winner; [done|].
  intros g p o. by apply Hno.
Qed.
End BestOrganism.

(** The invariant of a generation record: the three vectors have one entry
    per species. *)
Definition well_formed (g : Generation.t) : Prop :=
  Z.of_nat (length (Generation.Fitness g)) = Generation.Diversity g
  /\ Z.of_nat (length (Generation.Age g)) = Generation.Diversity g
  /\ Z.of_nat (length (Generation.Complexity g)) = Generation.Diversity g.

(** C4. On a generation with [Diversity = 0], whose three vectors are then
    empty, [Average] returns exactly [(0, 0, 0)], and no component is NaN. *)
Theorem Average_of_empty_generation (g : Generation.t) :
  well_formed g -> Generation.Diversity g = 0 ->
  Generation.Average g = (0%float, 0%float, 0%float)
  /\ PrimFloat.is_nan (Generation.Average g).1.1 = false
  /\ PrimFloat.is_nan (Generation.Average g).1.2 = false
  /\ PrimFloat.is_nan (Generation.Average g).2 = false.
Proof.
  intros (Hf & Ha & Hc) Hd. rewrite Hd in Hf, Ha, Hc.
  unfold Generation.Average.
  destruct (Generation.Fitness g), (Generation.Age g), (Generation.Complexity g);
    cbn in Hf, Ha, Hc; try lia.
  repeat split.
Qed.

Section Efficiency.
Context `{GenomeAPI}.
Variable organismComplexity : Organism.t -> Z.
Variable EmptyDuration : Z.
Variable Log : float64 -> float64.

(** IEEE 754: a product with NaN is NaN. *)
Lemma mul_nan_r (x : float64) : (x * PrimFloat.nan)%float = PrimFloat.nan.
Proof.
  rewrite <- (SF2Prim_Prim2SF (x * PrimFloat.nan)), FloatAxioms.mul_spec.
  change (Prim2SF PrimFloat.nan) with S754_nan.
  destruct (Prim2SF x); reflexivity.
Qed.

(** The loop of [EfficiencyScore] adds nothing for a trial that is not
    solved. *)
Lemma efficiency_loop_unsolved (h : list Organism.t) (trials : list Trial.t)
    (acc : option (float64 * float64 * float64)) :
  Forall (fun tr => Trial.Solved tr = false) trials ->
  fold_left (Experiment.efficiency_step organismComplexity h) trials acc = acc.
Proof.
  intros Hun. revert acc. induction Hun as [|tr rest Htr _ IH]; intros acc; cbn; [done|].
  rewrite IH. unfold Experiment.efficiency_step. rewrite Htr.
  destruct acc as [[[? ?] ?]|]; reflexivity.
Qed.

(** C3, at the failing inputs.  On every experiment with two or more trials
    none of which is solved, [count] stays 0, both means are 0/0, the
    penalty is NaN, the test [score > 0] fails and [EfficiencyScore] returns
    the penalty: NaN, which is not 0. *)
Theorem EfficiencyScore_unsolved_is_NaN (h : list Organism.t) (e : Experiment.t) :
  1 < Z.of_nat (length (Experiment.Trials e)) ->
  Forall (fun tr => Trial.Solved tr = false) (Experiment.Trials e) ->
  Experiment.EfficiencyScore organismComplexity EmptyDuration Log h e = Some PrimFloat.nan
  /\ PrimFloat.is_nan PrimFloat.nan = true
  /\ (PrimFloat.nan =? 0)%float = false.
Proof.
  intros Hlen Hun. split; [|split; reflexivity].
  unfold Experiment.EfficiencyScore.
  apply Z.ltb_lt in Hlen. rewrite Hlen.
  rewrite efficiency_loop_unsolved by done.
  change (0 / 0)%float with PrimFloat.nan.
  unfold Experiment.penaltyScore. rewrite mul_nan_r.
  reflexivity.
Qed.
End Efficiency.

Section RoundTrip.
Context `{GenomeAPI}.

(** What [decodeOrganism] rebuilds of an organism: the five scalars and the
    genome; [Flag] and the species back-reference are not in the stream. *)
Definition decoded_organism (o : Organism.t) : Organism.t :=
  Organism.mk (Organism.Fitness o) (Organism.IsWinner o) (Organism.Generation o)
              (Organism.ExpectedOffspring o) (Organism.Error o) 0 None
              (Organism.Genotype o).

(** A generation whose champion can be persisted: the champion is non-nil,
    it has a genotype, and the genome reader parses back what the genome
    writer wrote. *)
Definition persistable (h : list Organism.t) (g : Generation.t) : Prop :=
  exists p o genotype data,
    Generation.Champion g = Some p /\ h !! p = Some o
    /\ Organism.Genotype o = Some genotype
    /\ Genome_Write genotype = Ok data
    /\ ReadGenome data (Genome_Id genotype) = Ok genotype.

(** A decoded generation [g'] (in the store [h']) against the original [g]
    (in the store [h]): the twelve fields are equal, and the champion of [g']
    is the decoded form of the champion of [g]. *)
Definition same_generation (h h' : list Organism.t) (g g' : Generation.t) : Prop :=
  Generation.set_Champion g' None = Generation.set_Champion g None
  /\ exists o, champion_record h g = Some o
               /\ champion_record h' g' = Some (decoded_organism o).

(** A decoded trial against the original: the generations correspond; the
    duration and the cached winner generation are not in the stream. *)
Definition same_trial (h h' : list Organism.t) (tr tr' : Trial.t) : Prop :=
  Trial.Duration tr' = 0 /\ Trial.WinnerGeneration tr' = None
  /\ Forall2 (same_generation h h') (Trial.Generations tr) (Trial.Generations tr').

Lemma Generation_roundtrip (h : list Organism.t) (g : Generation.t) :
  persistable h g ->
  exists enc o,
    champion_record h g = Some o
    /\ (forall w, Generation.Encode g (mkStore h w) = Ok (tt, mkStore h (w ++ enc)))
    /\ (forall h1 rest,
          Generation.Decode (mkStore h1 (enc ++ rest))
          = Ok (Generation.set_Champion g (Some (length h1)),
                mkStore (h1 ++ [decoded_organism o]) rest)).
Proof.
  intros (p & o & genotype & data & Hp & Ho & Hgen & Hwrite & Hread).
  exists (Generation.fields g ++
          [ VFloat (Organism.Fitness o); VBool (Organism.IsWinner o);
            VInt (Organism.Generation o); VFloat (Organism.ExpectedOffspring o);
            VFloat (Organism.Error o); VInt (Genome_Id genotype); VBytes data ]), o.
  split; [|split].
  - unfold champion_record. by rewrite Hp.
  - intros w. rewrite Encode_fields, Hp.
    unfold Generation.encodeOrganism, bind, load, enc_Encode, lift; cbn.
    rewrite Ho, Hgen; cbn. rewrite Hwrite; cbn.
    rewrite <- !app_assoc. reflexivity.
  - intros h1 rest. rewrite <- app_assoc, Decode_fields.
    unfold Generation.decodeOrganism, bind, wrapped, dec_Decode, lift, alloc; cbn.
    rewrite Hread; cbn. unfold decoded_organism. rewrite Hgen. reflexivity.
Qed.

Lemma same_generation_decoded (h h' : list Organism.t) (g : Generation.t)
    (o : Organism.t) (p : ptr) :
  champion_record h g = Some o -> h' !! p = Some (decoded_organism o) ->
  same_generation h h' g (Generation.set_Champion g (Some p)).
Proof. intros Ho Hp. split; [reflexivity|]. exists o. split; [done|exact Hp]. Qed.

Lemma Generations_roundtrip (h : list Organism.t) (gs : list Generation.t) :
  Forall (persistable h) gs ->
  exists enc os,
    (forall w, forM_ Generation.Encode gs (mkStore h w) = Ok (tt, mkStore h (w ++ enc)))
    /\ (forall h1 rest,
          exists gs',
            timesM (length gs) Generation.Decode (mkStore h1 (enc ++ rest))
            = Ok (gs', mkStore (h1 ++ os) rest)
            /\ forall ext, Forall2 (same_generation h (h1 ++ os ++ ext)) gs gs').
Proof.
  induction 1 as [|g gs Hg _ (enc & os & Henc & Hdec)].
  - exists [], []. split.
    + intros w. cbn. unfold ret. by rewrite app_nil_r.
    + intros h1 rest. exists []. split; [|by constructor].
      cbn. unfold ret. by rewrite app_nil_r.
  - destruct (Generation_roundtrip h g Hg) as (enc_g & o & Ho & Henc_g & Hdec_g).
    exists (enc_g ++ enc), (decoded_organism o :: os). split.
    + intros w. cbn. unfold bind. rewrite Henc_g, Henc. by rewrite app_assoc.
    + intros h1 rest.
      destruct (Hdec (h1 ++ [decoded_organism o]) rest) as (gs' & Hgs' & Hsame).
      exists (Generation.set_Champion g (Some (length h1)) :: gs'). split.
      * cbn. unfold bind. rewrite <- app_assoc, Hdec_g, Hgs'. unfold ret.
        by rewrite <- app_assoc.
      * intros ext. constructor.
        -- apply (same_generation_decoded _ _ _ o); [done|].
           rewrite lookup_app_r by lia. by rewrite Nat.sub_diag.
        -- specialize (Hsame ext). by rewrite <- app_assoc in Hsame.
Qed.

Lemma Trials_roundtrip (h : list Organism.t) (trials : list Trial.t) :
  Forall (fun tr => Forall (persistable h) (Trial.Generations tr)) trials ->
  exists enc os,
    (forall w, forM_ Trial.Encode trials (mkStore h w) = Ok (tt, mkStore h (w ++ enc)))
    /\ (forall h1 rest,
          exists trials',
            timesM (length trials) (Trial.Decode Trial.zero) (mkStore h1 (enc ++ rest))
            = Ok (trials', mkStore (h1 ++ os) rest)
            /\ forall ext, Forall2 (same_trial h (h1 ++ os ++ ext)) trials trials').
Proof.
  induction 1 as [|tr trials Htr _ (enc & os & Henc & Hdec)].
  - exists [], []. split.
    + intros w. cbn. unfold ret. by rewrite app_nil_r.
    + intros h1 rest. exists []. split; [|by constructor].
      cbn. unfold ret. by rewrite app_nil_r.
  - destruct (Generations_roundtrip h _ Htr) as (enc_t & os_t & Henc_t & Hdec_t).
    exists (VInt (Z.of_nat (length (Trial.Generations tr))) :: enc_t ++ enc), (os_t ++ os).
    split.
    + intros w. cbn. unfold Trial.Encode at 1, bind, enc_Encode; cbn.
      rewrite Henc_t, Henc. do 2 f_equal. f_equal.
      rewrite <- !app_assoc. reflexivity.
    + intros h1 rest.
      destruct (Hdec_t h1 (enc ++ rest)) as (gs' & Hgs' & Hsame_t).
      destruct (Hdec (h1 ++ os_t) rest) as (trials' & Htrials' & Hsame).
      exists (Trial.mk gs' None 0 :: trials'). split.
      * cbn. unfold Trial.Decode at 1, bind, dec_Decode; cbn.
        replace (Z.of_nat (length (Trial.Generations tr)) <? 0) with false
          by (symmetry; apply Z.ltb_ge; lia).
        rewrite Nat2Z.id, <- app_assoc, Hgs'. unfold ret; cbn.
        rewrite Htrials'. by rewrite <- app_assoc.
      * intros ext. constructor.
        -- split; [done|]. split; [done|]. cbn.
           specialize (Hsame_t (os ++ ext)). by rewrite <- app_assoc.
        -- specialize (Hsame ext). rewrite <- !app_assoc in Hsame.
           by rewrite <- !app_assoc.
Qed.

(** C2, as amended.  For every experiment in which every generation of every
    trial has a champion that can be persisted, [Experiment.Decode] on what
    [Experiment.Encode] wrote succeeds and yields an experiment with the
    original [Id] and [Name], and trial by trial, generation by generation,
    the original twelve fields and the champion's fitness, winner flag,
    generation index, expected offspring, error and genome.  [RandSeed] and
    [MaxFitnessScore] are those of the receiver [e0], each trial's duration
    and cached winner generation are zero, and each champion's [Flag] and
    species are zero: none of them is in the stream. *)
Theorem Experiment_Encode_Decode_roundtrip
    (e e0 : Experiment.t) (h h1 : list Organism.t) (w rest : list Value) :
  Forall (fun tr => Forall (persistable h) (Trial.Generations tr)) (Experiment.Trials e) ->
  exists enc e' os,
    Experiment.Encode e (mkStore h w) = Ok (tt, mkStore h (w ++ enc))
    /\ Experiment.Decode e0 (mkStore h1 (enc ++ rest)) = Ok (e', mkStore (h1 ++ os) rest)
    /\ Experiment.Id e' = Experiment.Id e
    /\ Experiment.Name e' = Experiment.Name e
    /\ Experiment.RandSeed e' = Experiment.RandSeed e0
    /\ Experiment.MaxFitnessScore e' = Experiment.MaxFitnessScore e0
    /\ Forall2 (same_trial h (h1 ++ os)) (Experiment.Trials e) (Experiment.Trials e').
Proof.
  intros Hper.
  destruct (Trials_roundtrip h _ Hper) as (enc & os & Henc & Hdec).
  destruct (Hdec h1 rest) as (trials' & Htrials' & Hsame).
  exists (VInt (Experiment.Id e) :: VString (Experiment.Name e)
          :: VInt (Z.of_nat (length (Experiment.Trials e))) :: enc),
         (Experiment.mk (Experiment.Id e) (Experiment.Name e) (Experiment.RandSeed e0)
                        trials' (Experiment.MaxFitnessScore e0)), os.
  split_and!; try reflexivity.
  - unfold Experiment.Encode, bind, enc_Encode; cbn.
    rewrite Henc. do 2 f_equal. f_equal. rewrite <- !app_assoc. reflexivity.
  - unfold Experiment.Decode, bind, dec_Decode; cbn.
    replace (Z.of_nat (length (Experiment.Trials e)) <? 0) with false
      by (symmetry; apply Z.ltb_ge; lia).
    rewrite Nat2Z.id, Htrials'. reflexivity.
  - cbn. specialize (Hsame []). by rewrite app_nil_r in Hsame.
Qed.
End RoundTrip.

(** * Binary64 division of two counts

    [SuccessRate] divides two converted counts.  The facts below follow the
    specification of the primitive floats ([SpecFloat], [FloatAxioms]): an
    integer below [2^53] converts exactly, and the correctly rounded quotient
    of two such integers [s <= n] is in [[0, 1]] and is 1 only for [s = n]. *)
Lemma digits2_pos_bounds (p : positive) :
  2 ^ (Zpos (digits2_pos p) - 1) <= Zpos p < 2 ^ Zpos (digits2_pos p).
Proof.
  induction p as [p IH|p IH|]; cbn [digits2_pos].
  - rewrite Pos2Z.inj_succ.
    replace (Z.succ (Zpos (digits2_pos p)) - 1) with (Z.succ (Zpos (digits2_pos p) - 1)) by lia.
    rewrite !Z.pow_succ_r by lia. lia.
  - rewrite Pos2Z.inj_succ.
    replace (Z.succ (Zpos (digits2_pos p)) - 1) with (Z.succ (Zpos (digits2_pos p) - 1)) by lia.
    rewrite !Z.pow_succ_r by lia. lia.
  - cbn. lia.
Qed.

Lemma digits2_pos_unique (p : positive) (k : Z) :
  2 ^ (k - 1) <= Zpos p < 2 ^ k -> 0 < k -> Zpos (digits2_pos p) = k.
Proof.
  intros [Hlo Hhi] Hk.
  pose proof (digits2_pos_bounds p) as [Hlo' Hhi'].
  set (d := Zpos (digits2_pos p)) in *.
  assert (Hd : 0 < d) by (subst d; lia).
  destruct (Z.lt_trichotomy d k) as [Hlt|[Heq|Hgt]]; [|done|].
  - assert (2 ^ d <= 2 ^ (k - 1)) by (apply Z.pow_le_mono_r; lia). lia.
  - assert (2 ^ k <= 2 ^ (d - 1)) by (apply Z.pow_le_mono_r; lia). lia.
Qed.

Lemma Zdigits2_53 (q : Z) : 2 ^ 52 <= q < 2 ^ 53 -> Zdigits2 q = 53.
Proof.
  intros Hq. destruct q as [|p|p]; try lia.
  cbn [Zdigits2]. apply digits2_pos_unique; [exact Hq|lia].
Qed.

Lemma Zdigits2_54 (q : Z) : 2 ^ 53 <= q < 2 ^ 54 -> Zdigits2 q = 54.
Proof.
  intros Hq. destruct q as [|p|p]; try lia.
  cbn [Zdigits2]. apply digits2_pos_unique; [exact Hq|lia].
Qed.

(** The last step of [binary_round_aux]: a rounded mantissa that still has 53
    digits is kept, and [2^53] is renormalised to [2^52] one exponent up. *)
Lemma round_renormalise (sx : bool) (m : Z) (e : Z) :
  2 ^ 52 <= m <= 2 ^ 53 -> -1074 <= e <= 970 ->
  (let '(mrs, e2) := shr_fexp prec emax m e loc_Exact in
   match shr_m mrs with
   | Z0 => S754_zero sx
   | Zpos m' => if e2 <=? emax - prec then S754_finite sx m' e2 else S754_infinity sx
   | Zneg _ => S754_nan
   end)
  = if m <? 2 ^ 53 then S754_finite sx (Z.to_pos m) e
    else S754_finite sx (Z.to_pos (2 ^ 52)) (e + 1).
Proof.
  intros Hm He. unfold shr_fexp.
  destruct (Z.ltb_spec m (2 ^ 53)) as [Hlt|Hge].
  - rewrite Zdigits2_53 by lia.
    replace (fexp prec emax (53 + e) - e) with 0
      by (unfold fexp, SpecFloat.emin, prec, emax; lia).
    cbn [shr shr_record_of_loc shr_m].
    destruct m as [|p|p]; try lia.
    replace (e <=? emax - prec) with true
      by (symmetry; apply Z.leb_le; unfold prec, emax; lia).
    reflexivity.
  - assert (m = 2 ^ 53) as -> by lia.
    change (Zdigits2 (2 ^ 53)) with 54.
    replace (fexp prec emax (54 + e) - e) with 1
      by (unfold fexp, SpecFloat.emin, prec, emax; lia).
    cbn [shr shr_record_of_loc iter_pos].
    change (shr_m (shr_1 {| shr_m := 2 ^ 53; shr_r := false; shr_s := false |}))
      with (2 ^ 52).
    change (2 ^ 52) with (Zpos (Z.to_pos (2 ^ 52))) at 1.
    cbv iota beta.
    replace (e + 1 <=? emax - prec) with true
      by (symmetry; apply Z.leb_le; unfold prec, emax; lia).
    reflexivity.
Qed.

Lemma loc_of_shr_record_of_loc (m : Z) (l : location) :
  loc_of_shr_record (shr_record_of_loc m l) = l
  /\ shr_m (shr_record_of_loc m l) = m.
Proof. destruct l as [|[]]; split; reflexivity. Qed.

Lemma round_nearest_even_bounds (m : Z) (l : location) :
  m <= round_nearest_even m l <= m + 1.
Proof. destruct l as [|[]]; cbn; try lia. destruct (Z.even m); lia. Qed.

(** [binary_round_aux] on a quotient that already has 53 digits. *)
Lemma binary_round_aux_53 (sx : bool) (q e : Z) (l : location) :
  2 ^ 52 <= q < 2 ^ 53 -> -1074 <= e <= 970 ->
  binary_round_aux prec emax sx q e l
  = if round_nearest_even q l <? 2 ^ 53
    then S754_finite sx (Z.to_pos (round_nearest_even q l)) e
    else S754_finite sx (Z.to_pos (2 ^ 52)) (e + 1).
Proof.
  intros Hq He. unfold binary_round_aux.
  unfold shr_fexp at 1. rewrite Zdigits2_53 by lia.
  replace (fexp prec emax (53 + e) - e) with 0
    by (unfold fexp, SpecFloat.emin, prec, emax; lia).
  cbn [shr].
  destruct (loc_of_shr_record_of_loc q l) as [-> ->].
  apply round_renormalise; [|lia].
  pose proof (round_nearest_even_bounds q l). lia.
Qed.

(** One shift to the right halves the mantissa; an even mantissa leaves a
    location below the midpoint, which does not round up. *)
Lemma shr_1_round (q : Z) (l : location) :
  0 < q ->
  let mrs := shr_1 (shr_record_of_loc q l) in
  q / 2 <= round_nearest_even (shr_m mrs) (loc_of_shr_record mrs) <= q / 2 + 1
  /\ (Z.even q = true -> round_nearest_even (shr_m mrs) (loc_of_shr_record mrs) = q / 2).
Proof.
  intros Hq. destruct q as [|p|p]; try lia.
  destruct p as [p|p|].
  - replace (Z.pos p~1 / 2) with (Z.pos p)
      by (apply Z.div_unique with 1; lia).
    destruct l as [|[]]; cbn; split; try discriminate; try lia;
      destruct p; lia.
  - replace (Z.pos p~0 / 2) with (Z.pos p)
      by (apply Z.div_unique with 0; lia).
    destruct l as [|[]]; cbn; split; try reflexivity; lia.
  - change (1 / 2) with 0.
    destruct l as [|[]]; cbn; split; try discriminate; lia.
Qed.

(** [binary_round_aux] on a quotient with 54 digits: one shift, then the
    rounding. *)
Lemma binary_round_aux_54 (sx : bool) (q e : Z) (l : location) :
  2 ^ 53 <= q < 2 ^ 54 -> -1075 <= e <= 969 ->
  let mrs := shr_1 (shr_record_of_loc q l) in
  let m := round_nearest_even (shr_m mrs) (loc_of_shr_record mrs) in
  binary_round_aux prec emax sx q e l
  = if m <? 2 ^ 53 then S754_finite sx (Z.to_pos m) (e + 1)
    else S754_finite sx (Z.to_pos (2 ^ 52)) (e + 1 + 1).
Proof.
  intros Hq He mrs m. unfold binary_round_aux.
  unfold shr_fexp at 1. rewrite Zdigits2_54 by lia.
  replace (fexp prec emax (54 + e) - e) with 1
    by (unfold fexp, SpecFloat.emin, prec, emax; lia).
  cbn [shr iter_pos]. fold mrs. fold m.
  apply round_renormalise; [|lia].
  pose proof (shr_1_round q l ltac:(lia)) as [Hm _]. fold mrs in Hm. fold m in Hm.
  assert (2 ^ 52 <= q / 2 < 2 ^ 53).
  { split; [apply Z.div_le_lower_bound; lia|apply Z.div_lt_upper_bound; lia]. }
  lia.
Qed.

Lemma iter_xO_pow (p k : positive) :
  Zpos (Pos.iter xO p k) = Zpos p * 2 ^ Zpos k.
Proof.
  induction k as [|k IH] using Pos.peano_ind.
  - cbn. lia.
  - rewrite Pos.iter_succ, Pos2Z.inj_xO, IH, Pos2Z.inj_succ, Z.pow_succ_r by lia. lia.
Qed.

(** A float that holds a positive integer below [2^53] exactly: a 53-digit
    mantissa [m] and an exponent [e] with [m * 2^e = z]. *)
Definition normal53 (z : Z) (m : positive) (e : Z) : Prop :=
  -52 <= e <= 0 /\ Zpos m = z * 2 ^ (- e) /\ 2 ^ 52 <= Zpos m < 2 ^ 53.

Lemma binary_normalize_small (p : positive) :
  Zpos p < 2 ^ 53 ->
  exists m e,
    binary_normalize prec emax (Zpos p) 0 false = S754_finite false m e
    /\ normal53 (Zpos p) m e.
Proof.
  intros Hp. cbn [binary_normalize]. unfold binary_round.
  pose proof (digits2_pos_bounds p) as [Hlo Hhi].
  set (d := Zpos (digits2_pos p)) in *.
  assert (Hd : 1 <= d <= 53).
  { split; [subst d; lia|].
    destruct (Z.le_gt_cases d 53) as [|Hgt]; [done|].
    assert (2 ^ 53 <= 2 ^ (d - 1)) by (apply Z.pow_le_mono_r; lia). lia. }
  replace (fexp prec emax (d + 0)) with (d - 53)
    by (unfold fexp, SpecFloat.emin, prec, emax; lia).
  unfold shl_align.
  destruct (d - 53 - 0) as [|k|k] eqn:Hk; try lia.
  - assert (d = 53) as Hd53 by lia. rewrite Hd53 in Hlo, Hhi.
    rewrite binary_round_aux_53 by (cbn [Z.sub Z.pos_sub Z.opp] in *; lia).
    cbn [round_nearest_even].
    replace (Zpos p <? 2 ^ 53) with true by (symmetry; apply Z.ltb_lt; lia).
    exists p, 0. split; [reflexivity|]. unfold normal53. cbn [Z.opp]. lia.
  - assert (Hmz : Zpos (Pos.iter xO p k) = Zpos p * 2 ^ (53 - d)).
    { rewrite iter_xO_pow. f_equal. f_equal. lia. }
    assert (Hpow : 2 ^ (d - 1) * 2 ^ (53 - d) = 2 ^ 52).
    { rewrite <- Z.pow_add_r by lia. f_equal. lia. }
    assert (Hpow' : 2 ^ d * 2 ^ (53 - d) = 2 ^ 53).
    { rewrite <- Z.pow_add_r by lia. f_equal. lia. }
    assert (Hpos : 0 < 2 ^ (53 - d)) by (apply Z.pow_pos_nonneg; lia).
    assert (Hrange : 2 ^ 52 <= Zpos (Pos.iter xO p k) < 2 ^ 53).
    { rewrite Hmz. split; [rewrite <- Hpow|rewrite <- Hpow'].
      - apply Z.mul_le_mono_nonneg_r; lia.
      - apply Z.mul_lt_mono_pos_r; lia. }
    rewrite binary_round_aux_53 by lia.
    cbn [round_nearest_even].
    replace (Zpos (Pos.iter xO p k) <? 2 ^ 53) with true by (symmetry; apply Z.ltb_lt; lia).
    exists (Pos.iter xO p k), (d - 53). split; [reflexivity|].
    unfold normal53. split; [lia|]. split; [|exact Hrange].
    rewrite Hmz. f_equal. f_equal. lia.
Qed.

Lemma SFdiv_normal (m1 m2 : positive) (e1 e2 : Z) :
  2 ^ 52 <= Zpos m1 < 2 ^ 53 -> 2 ^ 52 <= Zpos m2 < 2 ^ 53 ->
  -52 <= e1 <= 0 -> -52 <= e2 <= 0 ->
  SFdiv prec emax (S754_finite false m1 e1) (S754_finite false m2 e2)
  = binary_round_aux prec emax false
      (Zpos m1 * 2 ^ 53 / Zpos m2) (e1 - e2 - 53)
      (new_location (Zpos m2) ((Zpos m1 * 2 ^ 53) mod Zpos m2)).
Proof.
  intros Hm1 Hm2 He1 He2. unfold SFdiv, SFdiv_core_binary.
  rewrite !Zdigits2_53 by lia.
  replace (Z.min (fexp prec emax (53 + e1 - (53 + e2))) (e1 - e2)) with (e1 - e2 - 53)
    by (unfold fexp, SpecFloat.emin, prec, emax; lia).
  replace (e1 - e2 - (e1 - e2 - 53)) with 53 by lia.
  cbv iota beta. rewrite Z.shiftl_mul_pow2 by lia.
  unfold Z.div, Z.modulo.
  destruct (Z.div_eucl (Zpos m1 * 2 ^ 53) (Zpos m2)) as [q r]. reflexivity.
Qed.

Lemma Prim2SF_one : Prim2SF 1%float = S754_finite false 4503599627370496 (-52).
Proof. reflexivity. Qed.

Lemma Prim2SF_zero : Prim2SF 0%float = S754_zero false.
Proof. reflexivity. Qed.

(** A positive float with an exponent below that of 1 is between 0 and 1 and
    is not 1. *)
Lemma below_one (m : positive) (e : Z) :
  e <= -53 ->
  SFleb (S754_zero false) (S754_finite false m e) = true
  /\ SFleb (S754_finite false m e) (S754_finite false 4503599627370496 (-52)) = true
  /\ SFeqb (S754_finite false m e) (S754_finite false 4503599627370496 (-52)) = false.
Proof.
  intros He. unfold SFleb, SFeqb, SFcompare.
  replace (e ?= -52) with Lt by (symmetry; apply Z.compare_lt_iff; lia).
  repeat split.
Qed.

Lemma SFdiv_same (m : positive) (e : Z) :
  2 ^ 52 <= Zpos m < 2 ^ 53 -> -52 <= e <= 0 ->
  SFdiv prec emax (S754_finite false m e) (S754_finite false m e)
  = S754_finite false 4503599627370496 (-52).
Proof.
  intros Hm He. rewrite SFdiv_normal by done.
  rewrite (Z.mul_comm (Zpos m)), Z.div_mul, Z.mod_mul by lia.
  replace (new_location (Zpos m) 0) with loc_Exact
    by (unfold new_location; destruct (Z.even (Zpos m)); reflexivity).
  replace (e - e - 53) with (-53) by lia.
  reflexivity.
Qed.

(** The quotient of two integers [0 < s < n < 2^53] held exactly rounds to a
    float below 1: its exponent is at most -53. *)
Lemma SFdiv_below_one (s n : Z) (m1 m2 : positive) (e1 e2 : Z) :
  normal53 s m1 e1 -> normal53 n m2 e2 -> 0 < s < n ->
  exists m e,
    SFdiv prec emax (S754_finite false m1 e1) (S754_finite false m2 e2)
    = S754_finite false m e /\ e <= -53.
Proof.
  intros (He1 & Hv1 & Hm1) (He2 & Hv2 & Hm2) Hsn.
  assert (Hp1 : 0 < 2 ^ (- e1)) by (apply Z.pow_pos_nonneg; lia).
  assert (Hp2 : 0 < 2 ^ (- e2)) by (apply Z.pow_pos_nonneg; lia).
  assert (Hle : e1 <= e2).
  { destruct (Z.le_gt_cases e1 e2) as [|Hgt]; [done|exfalso].
    assert (Hsplit : 2 ^ (- e2) = 2 ^ (- e2 - - e1) * 2 ^ (- e1)).
    { rewrite <- Z.pow_add_r by lia. f_equal. lia. }
    assert (2 ^ 1 <= 2 ^ (- e2 - - e1)) by (apply Z.pow_le_mono_r; lia).
    assert (2 * Zpos m1 <= Zpos m2); [|lia].
    rewrite Hv1, Hv2, Hsplit. nia. }
  rewrite SFdiv_normal by done.
  set (q := Zpos m1 * 2 ^ 53 / Zpos m2).
  set (l := new_location (Zpos m2) ((Zpos m1 * 2 ^ 53) mod Zpos m2)).
  assert (Hq : 2 ^ 52 <= q < 2 ^ 54).
  { subst q. split; [apply Z.div_le_lower_bound; lia|apply Z.div_lt_upper_bound; lia]. }
  destruct (Z.eq_dec e1 e2) as [Heq|Hne].
  - (* the same exponent: [m1 < m2] *)
    assert (Hlt : Zpos m1 < Zpos m2).
    { rewrite Hv1, Hv2, Heq. apply Z.mul_lt_mono_pos_r; lia. }
    assert (Hq' : q < 2 ^ 53 - 1) by (subst q; apply Z.div_lt_upper_bound; lia).
    rewrite binary_round_aux_53 by lia.
    pose proof (round_nearest_even_bounds q l) as Hr.
    replace (round_nearest_even q l <? 2 ^ 53) with true
      by (symmetry; apply Z.ltb_lt; lia).
    eexists _, _. split; [reflexivity|lia].
  - destruct (Z.lt_ge_cases q (2 ^ 53)) as [Hsmall|Hbig].
    + rewrite binary_round_aux_53 by lia.
      destruct (round_nearest_even q l <? 2 ^ 53);
        (eexists _, _; split; [reflexivity|lia]).
    + rewrite binary_round_aux_54 by lia. cbv zeta.
      destruct (shr_1_round q l ltac:(lia)) as [Hr Heven]. cbv zeta in Hr, Heven.
      set (m := round_nearest_even _ _) in *.
      destruct (Z.ltb_spec m (2 ^ 53)) as [Hm|Hm];
        [eexists _, _; split; [reflexivity|lia]|].
      destruct (Z.eq_dec e1 (e2 - 1)) as [Hone|Hmore];
        [exfalso|eexists _, _; split; [reflexivity|lia]].
      (* one exponent apart: [m1 <= 2 * m2 - 2], so [q <= 2^54 - 2] *)
      assert (Hsplit : 2 ^ (- e1) = 2 * 2 ^ (- e2)).
      { replace (- e1) with (Z.succ (- e2)) by lia. apply Z.pow_succ_r. lia. }
      assert (Hm12 : Zpos m1 <= 2 * Zpos m2 - 2).
      { rewrite Hv1, Hv2, Hsplit. nia. }
      assert (Hq' : q < 2 ^ 54 - 1) by (subst q; apply Z.div_lt_upper_bound; lia).
      destruct (Z.even q) eqn:Hev.
      * rewrite Heven in Hm by done.
        assert (q / 2 < 2 ^ 53) by (apply Z.div_lt_upper_bound; lia). lia.
      * assert (q <> 2 ^ 54 - 2) by (intros ->; discriminate Hev).
        assert (q / 2 < 2 ^ 53 - 1) by (apply Z.div_lt_upper_bound; lia). lia.
Qed.

Lemma Prim2SF_float64_of_int (z : Z) :
  0 <= z < 2 ^ 53 ->
  Prim2SF (Go.float64_of_int z) = binary_normalize prec emax z 0 false.
Proof.
  intros Hz. unfold Go.float64_of_int.
  replace (z =? Go.minInt64) with false by (symmetry; apply Z.eqb_neq; unfold Go.minInt64; lia).
  replace (z <? 0) with false by (symmetry; apply Z.ltb_ge; lia).
  rewrite FloatAxioms.of_uint63_spec, Uint63.of_Z_spec.
  rewrite Z.mod_small; [reflexivity|].
  change wB with (2 ^ 63). lia.
Qed.

(** The ratio of two counts [0 <= s <= n], [0 < n < 2^53], in binary64: it is
    in [[0, 1]], and it is 1 exactly when [s = n]. *)
Lemma ratio_bounds (s n : Z) :
  0 <= s <= n -> 0 < n < 2 ^ 53 ->
  (0 <=? Go.float64_of_int s / Go.float64_of_int n)%float = true
  /\ (Go.float64_of_int s / Go.float64_of_int n <=? 1)%float = true
  /\ ((Go.float64_of_int s / Go.float64_of_int n =? 1)%float = true <-> s = n).
Proof.
  intros Hs Hn.
  rewrite !FloatAxioms.leb_spec, FloatAxioms.eqb_spec, FloatAxioms.div_spec, Prim2SF_one, Prim2SF_zero.
  rewrite !Prim2SF_float64_of_int by lia. unfold SF64div.
  destruct n as [|pn|pn]; try lia.
  destruct (Z.eq_dec s (Zpos pn)) as [->|Hne].
  { (* every trial solved *)
    destruct (binary_normalize_small pn ltac:(lia)) as (m & e & -> & He & _ & Hm).
    rewrite SFdiv_same by done. repeat split; reflexivity. }
  destruct (binary_normalize_small pn ltac:(lia)) as (m2 & e2 & -> & Hn2).
  destruct s as [|ps|ps]; try lia.
  - (* no trial solved *)
    cbn. repeat split; try discriminate.
  - destruct (binary_normalize_small ps ltac:(lia)) as (m1 & e1 & -> & Hn1).
    destruct (SFdiv_below_one _ _ _ _ _ _ Hn1 Hn2 ltac:(lia)) as (m & e & -> & He).
    destruct (below_one m e He) as (H0 & H1 & Hneq).
    rewrite H0, H1, Hneq. repeat split; try done.
Qed.

(** Beyond [2^53] the conversion rounds, and a ratio of two different counts
    can be 1. *)
Example ratio_beyond_2_53 :
  (Go.float64_of_int (2 ^ 53) / Go.float64_of_int (2 ^ 53 + 1) =? 1)%float = true.
Proof. reflexivity. Qed.

Section SuccessRate.

(** The loop of [TrialsSolved]: it counts up by at most one per trial, and by
    exactly one per trial only if every trial is solved. *)
Lemma TrialsSolved_loop (trials : list Trial.t) :
  forall count : Z,
    let r := fold_left (fun count t => if Trial.Solved t then count + 1 else count)
                       trials count in
    count <= r <= count + Z.of_nat (length trials)
    /\ (r = count + Z.of_nat (length trials)
        <-> Forall (fun tr => Trial.Solved tr = true) trials).
Proof.
  induction trials as [|tr rest IH]; intros count; cbn zeta.
  - cbn. split; [lia|]. split; [constructor|lia].
  - cbn [fold_left length]. rewrite Nat2Z.inj_succ.
    destruct (Trial.Solved tr) eqn:Htr.
    + destruct (IH (count + 1)) as [Hb Hiff]. cbn zeta in Hb, Hiff.
      split; [lia|]. rewrite Forall_cons. split.
      * intros Hr. split; [done|]. apply Hiff. lia.
      * intros [_ Hall]. apply Hiff in Hall. lia.
    + destruct (IH count) as [Hb Hiff]. cbn zeta in Hb, Hiff.
      split; [lia|]. rewrite Forall_cons. split; [lia|].
      intros [Hsolved _]. congruence.
Qed.

(** C5.  For every experiment (with fewer than [2^53] trials, a bound every
    slice of trials in memory meets, so that both counts convert to
    [float64] exactly) [SuccessRate] is in the closed interval [[0, 1]]; it
    is 0 when there is no trial; and otherwise it equals 1.0 if and only if
    every trial is solved. *)
Theorem SuccessRate_bounds (e : Experiment.t) :
  Z.of_nat (length (Experiment.Trials e)) < 2 ^ 53 ->
  (0 <=? Experiment.SuccessRate e)%float = true
  /\ (Experiment.SuccessRate e <=? 1)%float = true
  /\ ((Experiment.SuccessRate e =? 1)%float = true
      <-> Experiment.Trials e <> []
          /\ Forall (fun tr => Trial.Solved tr = true) (Experiment.Trials e))
  /\ (Experiment.Trials e = [] -> Experiment.SuccessRate e = 0%float).
Proof.
  intros Hlen. unfold Experiment.SuccessRate, Experiment.TrialsSolved.
  destruct (TrialsSolved_loop (Experiment.Trials e) 0) as [Hcount Hall].
  cbn zeta in Hcount, Hall.
  destruct (Experiment.Trials e) as [|tr rest] eqn:Htrials.
  - cbn. split_and!; try reflexivity. split; [discriminate|]. by intros [? _].
  - replace (0 <? Z.of_nat (length (tr :: rest))) with true
      by (symmetry; apply Z.ltb_lt; cbn [length]; lia).
    set (solved := fold_left _ _ _) in *.
    destruct (ratio_bounds solved (Z.of_nat (length (tr :: rest))))
      as (H0 & H1 & Heq); [lia|cbn [length] in *; lia|].
    split_and!; [exact H0|exact H1| |discriminate].
    rewrite Heq. split.
    + intros Hs. split; [discriminate|]. apply Hall. lia.
    + intros [_ Hs]. apply Hall in Hs. lia.
Qed.
End SuccessRate.

(** * Concrete inputs *)

Definition demo_organism : @Organism.t textGenome :=
  Organism.mk (H := textGenome) 0.75%float true 3 1.5%float 0.25%float 7
              (Some 2%nat) (Some (mkTextGenome 5 [Byte.x61; Byte.x62])).

(** An organism that is fitter than [demo_organism] and is not a winner. *)
Definition demo_loser : @Organism.t textGenome :=
  Organism.mk (H := textGenome) 99%float false 4 0%float 0%float 0 None
              (Some (mkTextGenome 6 [Byte.x63])).

Definition demo_generation : Generation.t :=
  Generation.mk 1 100 20 (Some 0%nat) true [0.75%float] [2%float] [10%float]
                1 50 4 6 0.

Definition unsolved_generation : Generation.t :=
  Generation.mk 1 100 20 (Some 0%nat) false [99%float] [2%float] [10%float]
                1 0 0 0 0.

Definition demo_trial : Trial.t := Trial.mk [demo_generation] None 77.
Definition unsolved_trial : Trial.t := Trial.mk [unsolved_generation] None 77.

Definition demo_experiment : Experiment.t :=
  Experiment.mk 9 "xor" 42 [demo_trial] 16%float.

Definition unsolved_experiment : Experiment.t :=
  Experiment.mk 9 "xor" 42 [unsolved_trial; unsolved_trial] 16%float.

Definition demo_population : Population.t :=
  Population.mk [Species.mk 3 [0%nat]].

Lemma set_Fitness_changes :
  Organism.set_Fitness demo_organism 2%float <> demo_organism.
Proof.
  intros E. apply (f_equal (fun o => (Organism.Fitness o =? 2)%float)) in E.
  vm_compute in E. discriminate E.
Qed.

(** What [Experiment.Encode] writes for [demo_experiment]. *)
Definition demo_stream : list Value :=
  [ VInt 9; VString "xor"; VInt 1; VInt 1;
    VInt 1; VTime 100; VBool true; VFloats [0.75%float]; VFloats [2%float];
    VFloats [10%float]; VInt 1; VInt 50; VInt 4; VInt 6; VInt 20; VInt 0;
    VFloat 0.75%float; VBool true; VInt 3; VFloat 1.5%float; VFloat 0.25%float;
    VInt 5; VBytes [Byte.x61; Byte.x62] ].

(** What [Experiment.Decode] rebuilds from it in a fresh experiment. *)
Definition demo_decoded : Experiment.t :=
  Experiment.mk 9 "xor" 0 [Trial.mk [demo_generation] None 0] 0%float.

(** C2, counterexample.  Every generation of [demo_experiment] has a
    champion, and decoding what [Encode] wrote into a fresh experiment
    succeeds, but the result is not the original: the random seed and the
    maximal fitness score are gone, and so are the champion's flag and
    species. *)
Lemma roundtrip_loses_unpersisted_fields :
  Forall (fun tr => Forall (fun g => is_Some (champion_record [demo_organism] g))
                           (Trial.Generations tr))
         (Experiment.Trials demo_experiment)
  /\ Experiment.Encode demo_experiment (mkStore [demo_organism] [])
     = Ok (tt, mkStore [demo_organism] demo_stream)
  /\ Experiment.Decode Experiment.zero (mkStore [] demo_stream)
     = Ok (demo_decoded, mkStore [decoded_organism demo_organism] [])
  /\ demo_decoded <> demo_experiment
  /\ Experiment.RandSeed demo_decoded <> Experiment.RandSeed demo_experiment
  /\ decoded_organism demo_organism <> demo_organism.
Proof.
  split_and!.
  - repeat constructor. by eexists.
  - vm_compute. reflexivity.
  - vm_compute. reflexivity.
  - intros E. apply (f_equal Experiment.RandSeed) in E. discriminate E.
  - discriminate.
  - intros E. apply (f_equal Organism.Flag) in E. discriminate E.
Qed.

Lemma demo_experiment_persistable :
  Forall (fun tr => Forall (persistable [demo_organism]) (Trial.Generations tr))
         (Experiment.Trials demo_experiment).
Proof.
  repeat constructor.
  exists 0%nat, demo_organism, (mkTextGenome 5 [Byte.x61; Byte.x62]), [Byte.x61; Byte.x62].
  split_and!; reflexivity.
Defined.

Lemma Experiment_Encode_Decode_roundtrip_witness :
  exists enc e' os,
    Experiment.Encode demo_experiment (mkStore [demo_organism] []) 
      = Ok (tt, mkStore [demo_organism] ([] ++ enc))
    /\ Experiment.Decode Experiment.zero (mkStore [] (enc ++ []))
       = Ok (e', mkStore ([] ++ os) [])
    /\ Experiment.Id e' = Experiment.Id demo_experiment
    /\ Experiment.Name e' = Experiment.Name demo_experiment
    /\ Experiment.RandSeed e' = Experiment.RandSeed Experiment.zero
    /\ Experiment.MaxFitnessScore e' = Experiment.MaxFitnessScore Experiment.zero
    /\ Forall2 (same_trial [demo_organism] ([] ++ os))
               (Experiment.Trials demo_experiment) (Experiment.Trials e').
Proof.
  apply (Experiment_Encode_Decode_roundtrip demo_experiment Experiment.zero
           [demo_organism] [] [] []).
  exact demo_experiment_persistable.
Defined.

(** The generation [FillPopulationStatistics] leaves for [demo_population]. *)
Definition demo_filled : Generation.t :=
  Generation.mk 0 0 0 (Some 0%nat) false [0.75%float] [3%float] [10%float] 1 0 0 0 0.

(** C7, counterexample.  [FillPopulationStatistics] on a population whose
    only organism lives at address 0 records that address as the champion;
    a later write of a new fitness to the population's organism changes the
    champion the generation shows. *)
Lemma champion_is_not_a_copy :
  Generation.FillPopulationStatistics by_fitness (fun _ => 10) [demo_organism]
    Generation.zero demo_population = Some (demo_filled, demo_population)
  /\ 0%nat ∈ mjoin (Species.Organisms <$> Population.Species demo_population)
  /\ champion_record [demo_organism] demo_filled = Some demo_organism
  /\ champion_record (<[0%nat := Organism.set_Fitness demo_organism 2%float]> [demo_organism])
                     demo_filled
     = Some (Organism.set_Fitness demo_organism 2%float)
  /\ champion_record (<[0%nat := Organism.set_Fitness demo_organism 2%float]> [demo_organism])
                     demo_filled
     <> champion_record [demo_organism] demo_filled.
Proof.
  split_and!.
  - vm_compute. reflexivity.
  - left.
  - reflexivity.
  - reflexivity.
  - change (Some (Organism.set_Fitness demo_organism 2%float) <> Some demo_organism).
    intros E. apply set_Fitness_changes. exact (inj Some _ _ E).
Qed.

Lemma FillPopulationStatistics_champion_is_shared_witness :
  Generation.FillPopulationStatistics by_fitness (fun _ => 10) [demo_organism]
    Generation.zero demo_population
  = Some (demo_filled, demo_population)
  /\ forall (p : ptr) (o' : Organism.t),
       is_Some ([demo_organism] !! p) ->
       champion_record (<[p := o']> [demo_organism]) demo_filled
       = if bool_decide (Generation.Champion demo_filled = Some p) then Some o'
         else champion_record [demo_organism] demo_filled.
Proof.
  split; [vm_compute; reflexivity|].
  apply (FillPopulationStatistics_champion_is_shared by_fitness (fun _ => 10)
           [demo_organism] Generation.zero demo_filled demo_population demo_population).
  vm_compute. reflexivity.
Defined.

(** C9 on a concrete population: two species, three organisms. *)
Example FillPopulationStatistics_lengths_example :
  Generation.FillPopulationStatistics by_fitness (fun _ => 10)
    [demo_organism; demo_loser] Generation.zero
    (Population.mk [Species.mk 3 [0%nat; 1%nat]; Species.mk 5 [0%nat]])
  = Some (Generation.mk 0 0 0 (Some 1%nat) false
            [99%float; 0.75%float] [3%float; 5%float] [10%float; 10%float] 2 0 0 0 0,
          Population.mk [Species.mk 3 [1%nat; 0%nat]; Species.mk 5 [0%nat]]).
Proof. vm_compute. reflexivity. Qed.

(** C8 on a concrete experiment: the only champion is fitter than any winner
    could be and is not flagged as a winner. *)
Lemma BestOrganism_onlySolvers_not_found_witness :
  Experiment.BestOrganism by_fitness [demo_loser]
    (Experiment.mk 9 "xor" 42 [unsolved_trial] 16%float) true
  = Some ([demo_loser], (None, -1, false)).
Proof.
  apply (BestOrganism_onlySolvers_not_found by_fitness [demo_loser]
           (Experiment.mk 9 "xor" 42 [unsolved_trial] 16%float)).
  intros tr g p o Htr Hg Hp Ho.
  apply list_elem_of_singleton in Htr as ->.
  apply list_elem_of_singleton in Hg as ->.
  injection Hp as <-. injection Ho as <-. reflexivity.
Defined.

(** Without the filter the same organism is found, in trial 0. *)
Example BestOrganism_all_found :
  Experiment.BestOrganism by_fitness [demo_loser]
    (Experiment.mk 9 "xor" 42 [unsolved_trial] 16%float) false
  = Some ([demo_loser], (Some 0%nat, 0, true)).
Proof. vm_compute. reflexivity. Qed.

(** C10 on a concrete experiment: the champion of trial 0 carried [Flag = 7]
    before the query and carries [Flag = 0] after it. *)
Lemma BestOrganism_overwrites_Flag_witness :
  Experiment.BestOrganism by_fitness [demo_organism] demo_experiment true
  = Some ([Organism.set_Flag demo_organism 0], (Some 0%nat, 0, true))
  /\ Organism.Flag demo_organism = 7
  /\ (forall (k : nat) (tr : Trial.t) (p : ptr),
        Experiment.Trials demo_experiment !! k = Some tr ->
        Trial.BestOrganism [demo_organism] tr true = Some p ->
        (forall (j : nat) (tr' : Trial.t),
           (k < j)%nat -> Experiment.Trials demo_experiment !! j = Some tr' ->
           Trial.BestOrganism [demo_organism] tr' true <> Some p) ->
        exists o, [demo_organism] !! p = Some o
                  /\ [Organism.set_Flag demo_organism 0] !! p
                     = Some (Organism.set_Flag o (Z.of_nat k)))
  /\ (forall p : ptr,
        (forall tr, tr ∈ Experiment.Trials demo_experiment ->
                    Trial.BestOrganism [demo_organism] tr true <> Some p) ->
        [Organism.set_Flag demo_organism 0] !! p = [demo_organism] !! p).
Proof.
  split; [vm_compute; reflexivity|]. split; [reflexivity|].
  apply (BestOrganism_overwrites_Flag by_fitness [demo_organism]
           [Organism.set_Flag demo_organism 0] demo_experiment true
           (Some 0%nat, 0, true)).
  vm_compute. reflexivity.
Defined.

Lemma Average_of_empty_generation_witness :
  Generation.Average Generation.zero = (0%float, 0%float, 0%float)
  /\ PrimFloat.is_nan (Generation.Average Generation.zero).1.1 = false
  /\ PrimFloat.is_nan (Generation.Average Generation.zero).1.2 = false
  /\ PrimFloat.is_nan (Generation.Average Generation.zero).2 = false.
Proof.
  apply (Average_of_empty_generation Generation.zero).
  - repeat split.
  - reflexivity.
Defined.

(** C3 on a concrete experiment: two trials, neither solved. *)
Lemma EfficiencyScore_unsolved_is_NaN_witness :
  Experiment.EfficiencyScore (fun _ => 10) 0 (fun x => x) [demo_loser] unsolved_experiment
  = Some PrimFloat.nan
  /\ PrimFloat.is_nan PrimFloat.nan = true
  /\ (PrimFloat.nan =? 0)%float = false.
Proof.
  apply (EfficiencyScore_unsolved_is_NaN (fun _ => 10) 0 (fun x => x)
           [demo_loser] unsolved_experiment).
  - reflexivity.
  - repeat constructor.
Defined.

(** C5 on concrete experiments: one trial, solved; two trials, none solved. *)
Lemma SuccessRate_bounds_witness :
  Z.of_nat (length (Experiment.Trials demo_experiment)) < 2 ^ 53
  /\ Experiment.SuccessRate demo_experiment = 1%float
  /\ Experiment.SuccessRate unsolved_experiment = 0%float
  /\ ((0 <=? Experiment.SuccessRate demo_experiment)%float = true
      /\ (Experiment.SuccessRate demo_experiment <=? 1)%float = true
      /\ ((Experiment.SuccessRate demo_experiment =? 1)%float = true
          <-> Experiment.Trials demo_experiment <> []
              /\ Forall (fun tr => Trial.Solved tr = true)
                        (Experiment.Trials demo_experiment))
      /\ (Experiment.Trials demo_experiment = []
          -> Experiment.SuccessRate demo_experiment = 0%float)).
Proof.
  split; [reflexivity|]. split; [reflexivity|]. split; [reflexivity|].
  apply (SuccessRate_bounds demo_experiment). reflexivity.
Defined.

(** * The generation codec, value by value *)

Section CodecShape.
Context `{GenomeAPI}.

Lemma bind_Ok {A B} (m : M A) (k : A -> M B) (st : Store) (r : B * Store) :
  bind m k st = Ok r -> exists a st1, m st = Ok (a, st1) /\ k a st1 = Ok r.
Proof.
  unfold bind. destruct (m st) as [[a st1]|e]; [|discriminate]. eauto.
Qed.

Lemma bind_Err {A B} (m : M A) (k : A -> M B) (st : Store) (e : error) :
  bind m k st = Err e ->
  m st = Err e \/ exists a st1, m st = Ok (a, st1) /\ k a st1 = Err e.
Proof.
  unfold bind. destruct (m st) as [[a st1]|e']; [eauto|]. intros [= ->]. by left.
Qed.

(** A successful read takes the first value off the stream, which has the
    expected type, and leaves the organisms alone. *)
Lemma dec_Decode_Ok {A} (as_type : Value -> option A) (msg : string)
    (st st' : Store) (a : A) :
  wrapped (dec_Decode as_type) msg st = Ok (a, st') ->
  exists v, wire st = v :: wire st' /\ as_type v = Some a /\ heap st' = heap st.
Proof.
  unfold wrapped, dec_Decode. destruct (wire st) as [|v rest]; [discriminate|].
  destruct (as_type v) as [a'|] eqn:Hv; [|discriminate]. intros [= <- <-].
  exists v. cbn. done.
Qed.

(** The values [encodeOrganism] sends for an organism with a genotype whose
    text is [data]. *)
Definition organism_values (o : Organism.t) (genId : Z) (data : list Byte.byte)
    : list Value :=
  [ VFloat (Organism.Fitness o); VBool (Organism.IsWinner o);
    VInt (Organism.Generation o); VFloat (Organism.ExpectedOffspring o);
    VFloat (Organism.Error o); VInt genId; VBytes data ].

Lemma decodeOrganism_Ok (st st' : Store) (p : ptr) :
  Generation.decodeOrganism st = Ok (p, st') ->
  exists o genotype genId data,
    wire st = organism_values o genId data ++ wire st'
    /\ ReadGenome data genId = Ok genotype
    /\ Organism.Genotype o = Some genotype
    /\ Organism.Flag o = 0 /\ Organism.Species o = None
    /\ p = length (heap st) /\ heap st' = heap st ++ [o].
Proof.
  unfold Generation.decodeOrganism. intros Hd.
  repeat (apply bind_Ok in Hd as (? & ? & ?%dec_Decode_Ok & Hd)).
  apply bind_Ok in Hd as (genotype & st7 & Hread & Hd).
  unfold lift in Hread. unfold alloc in Hd.
  destruct (ReadGenome _ _) as [gen|] eqn:Hgen; [|discriminate].
  injection Hread as -> ->. injection Hd as <- <-.
  repeat match goal with
         | Hx : exists v, _ |- _ => destruct Hx as (? & ? & ? & ?)
         end.
  repeat match goal with
         | Hx : as_float ?v = Some _ |- _ => destruct v; try discriminate Hx; injection Hx as ->
         | Hx : as_bool ?v = Some _ |- _ => destruct v; try discriminate Hx; injection Hx as ->
         | Hx : as_int ?v = Some _ |- _ => destruct v; try discriminate Hx; injection Hx as ->
         | Hx : as_bytes ?v = Some _ |- _ => destruct v; try discriminate Hx; injection Hx as ->
         end.
  eexists (Organism.mk _ _ _ _ _ 0 None (Some genotype)), genotype, _, _.
  cbn [wire heap Organism.Genotype Organism.Flag Organism.Species].
  split_and!; try reflexivity; try eassumption.
  - repeat match goal with Hw : wire _ = _ :: _ |- _ => rewrite Hw; clear Hw end.
    reflexivity.
  - congruence.
  - f_equal. congruence.
Qed.

(** The twelve fields of a generation, read back. *)
Lemma Decode_Ok (st st' : Store) (g : Generation.t) :
  Generation.Decode st = Ok (g, st') ->
  exists st1 p,
    wire st = Generation.fields g ++ wire st1 /\ heap st1 = heap st
    /\ Generation.decodeOrganism st1 = Ok (p, st')
    /\ Generation.Champion g = Some p.
Proof.
  unfold Generation.Decode. intros Hd.
  repeat (apply bind_Ok in Hd as (? & ? & ?%dec_Decode_Ok & Hd)).
  apply bind_Ok in Hd as (p & st13 & Horg & Hd).
  injection Hd as <- <-.
  repeat match goal with
         | Hx : exists v, _ |- _ => destruct Hx as (? & ? & ? & ?)
         end.
  repeat match goal with
         | Hx : as_floats ?v = Some _ |- _ => destruct v; try discriminate Hx; injection Hx as ->
         | Hx : as_bool ?v = Some _ |- _ => destruct v; try discriminate Hx; injection Hx as ->
         | Hx : as_int ?v = Some _ |- _ => destruct v; try discriminate Hx; injection Hx as ->
         | Hx : as_time ?v = Some _ |- _ => destruct v; try discriminate Hx; injection Hx as ->
         end.
  eexists _, p. split_and!; [|..|eassumption|reflexivity].
  - repeat match goal with Hw : wire _ = _ :: _ |- _ => rewrite Hw; clear Hw end.
    reflexivity.
  - congruence.
Qed.

(** X1.  Whenever [Generation.Decode] succeeds it has consumed exactly the
    twelve fields of its result followed by the seven values of an organism,
    it has allocated exactly one organism (with [Flag] 0, no species and the
    genotype [ReadGenome] returned) and left every existing organism alone,
    and the champion of the result is that new organism: it is never nil. *)
Theorem Decode_consumes_one_record (st st' : Store) (g : Generation.t) :
  Generation.Decode st = Ok (g, st') ->
  exists o genotype genId data,
    wire st = Generation.fields g ++ organism_values o genId data ++ wire st'
    /\ ReadGenome data genId = Ok genotype
    /\ Organism.Genotype o = Some genotype
    /\ Organism.Flag o = 0 /\ Organism.Species o = None
    /\ heap st' = heap st ++ [o]
    /\ Generation.Champion g = Some (length (heap st)).
Proof.
  intros (st1 & p & Hw & Hh & Horg & Hc)%Decode_Ok.
  apply decodeOrganism_Ok in Horg
    as (o & genotype & genId & data & Hw1 & Hread & Hgen & Hflag & Hsp & -> & Hh').
  exists o, genotype, genId, data.
  rewrite Hw, Hw1, Hh', Hc, Hh. done.
Qed.

(** What the failed read of a field comes back as: the error of the
    decoder, wrapped with the message of the field. *)
Lemma wrapped_Err {A} (m : M A) (msg : string) (st : Store) (e : error) :
  wrapped m msg st = Err e -> exists cause, m st = Err cause /\ e = Wrap cause msg.
Proof.
  unfold wrapped. destruct (m st) as [r|cause]; [discriminate|]. intros [= <-]. eauto.
Qed.

(** The messages [Generation.Decode] and [decodeOrganism] wrap a failed read
    with, each listed once. *)
Definition decode_messages : list string :=
  [ "failed to decode Id"; "failed to decode Executed"; "failed to decode Solved";
    "failed to decode Fitness"; "failed to decode Age"; "failed to decode Complexity";
    "failed to decode Diversity"; "failed to decode WinnerEvals";
    "failed to decode WinnerNodes"; "failed to decode Duration";
    "failed to decode TrialId"; "failed to decode IsWinner";
    "failed to decode Generation"; "failed to decode genId";
    "failed to decode organism's data" ].

Ltac known_message :=
  left; match goal with
        | Hx : exists cause, _ /\ _ = Wrap _ _ |- _ =>
            destruct Hx as (cause & _ & ->); exists cause; eexists;
            split; [reflexivity|]; unfold decode_messages; rewrite !elem_of_cons; tauto
        end.

Lemma decodeOrganism_Err (st : Store) (e : error) :
  Generation.decodeOrganism st = Err e ->
  (exists cause msg, e = Wrap cause msg /\ msg ∈ decode_messages)
  \/ exists data genId, ReadGenome data genId = Err e.
Proof.
  unfold Generation.decodeOrganism. intros Hd.
  repeat (apply bind_Err in Hd as [Hd%wrapped_Err|(? & ? & _ & Hd)];
          [known_message|]).
  apply bind_Err in Hd as [Hd|(? & ? & _ & Hd)]; [|discriminate Hd].
  right. unfold lift in Hd.
  match type of Hd with
  | context [ReadGenome ?d ?i] => exists d, i; destruct (ReadGenome d i); congruence
  end.
Qed.

(** X2.  Every error of [Generation.Decode] is either the error of a failed
    read, whatever it is, wrapped with one of fifteen messages, or the error
    of the genome reader, returned as it is, not wrapped.  No message names
    [WinnerGenes], [ExpectedOffspring] or [Error]. *)
Theorem Decode_error_kinds (st : Store) (e : error) :
  Generation.Decode st = Err e ->
  ((exists cause msg, e = Wrap cause msg /\ msg ∈ decode_messages)
   \/ exists data genId, ReadGenome data genId = Err e)
  /\ ("failed to decode WinnerGenes" ∉ decode_messages)
  /\ ("failed to decode ExpectedOffspring" ∉ decode_messages)
  /\ ("failed to decode Error" ∉ decode_messages).
Proof.
  intros Hd. split; [|split_and!; unfold decode_messages;
                      rewrite !elem_of_cons, elem_of_nil; intuition discriminate].
  unfold Generation.Decode in Hd.
  repeat (apply bind_Err in Hd as [Hd%wrapped_Err|(? & ? & _ & Hd)];
          [known_message|]).
  apply bind_Err in Hd as [Hd|(? & ? & _ & Hd)]; [|discriminate Hd].
  by apply decodeOrganism_Err in Hd.
Qed.

(** X3.  When the genome writer gives back the identity and the text a
    genome was read from, encoding a decoded generation reproduces the
    values [Decode] consumed. *)
Theorem Decode_Encode_roundtrip (st st' : Store) (g : Generation.t) :
  (forall data genId genotype,
     ReadGenome data genId = Ok genotype ->
     Genome_Id genotype = genId /\ Genome_Write genotype = Ok data) ->
  Generation.Decode st = Ok (g, st') ->
  exists consumed,
    wire st = consumed ++ wire st'
    /\ forall w,
         Generation.Encode g (mkStore (heap st') w)
         = Ok (tt, mkStore (heap st') (w ++ consumed)).
Proof.
  intros Hgenome (st1 & p & Hw & Hh & Horg & Hc)%Decode_Ok.
  apply decodeOrganism_Ok in Horg
    as (o & genotype & genId & data & Hw1 & Hread & Hgen & Hflag & Hsp & -> & Hh').
  destruct (Hgenome _ _ _ Hread) as [Hid Hwrite].
  exists (Generation.fields g ++ organism_values o genId data). split.
  - rewrite Hw, Hw1. by rewrite <- app_assoc.
  - intros w. rewrite Encode_fields, Hc.
    unfold Generation.encodeOrganism, bind, load, enc_Encode, lift; cbn.
    rewrite Hh', lookup_app_r by lia. rewrite Nat.sub_diag; cbn.
    rewrite Hgen; cbn. rewrite Hwrite, Hid; cbn.
    rewrite <- !app_assoc. reflexivity.
Qed.

(** X4.  [encodeOrganism] writes the genome only when the organism has one:
    for a champion without a genotype [Encode] succeeds with the twelve
    fields and five organism values, and [Decode], which always reads a
    genome, fails on that stream at the genome identity. *)
Theorem Encode_without_genotype (g : Generation.t) (h h1 : list Organism.t)
    (w : list Value) (p : ptr) (o : Organism.t) :
  Generation.Champion g = Some p -> h !! p = Some o -> Organism.Genotype o = None ->
  let five := [ VFloat (Organism.Fitness o); VBool (Organism.IsWinner o);
                VInt (Organism.Generation o); VFloat (Organism.ExpectedOffspring o);
                VFloat (Organism.Error o) ] in
  Generation.Encode g (mkStore h w) = Ok (tt, mkStore h (w ++ Generation.fields g ++ five))
  /\ Generation.Decode (mkStore h1 (Generation.fields g ++ five))
     = Err (Wrap EOF "failed to decode genId").
Proof.
  intros Hc Hp Hgen five. split.
  - rewrite Encode_fields, Hc.
    unfold Generation.encodeOrganism, bind, load, enc_Encode; cbn.
    rewrite Hp, Hgen; cbn. unfold ret. rewrite <- !app_assoc. reflexivity.
  - rewrite Decode_fields. reflexivity.
Qed.

Lemma encodeOrganism_Ok (p : ptr) (st st' : Store) (u : unit) :
  Generation.encodeOrganism p st = Ok (u, st') ->
  heap st' = heap st
  /\ exists o enc,
       heap st !! p = Some o /\ wire st' = wire st ++ enc
       /\ length enc = match Organism.Genotype o with
                       | Some _ => 7%nat
                       | None => 5%nat
                       end.
Proof.
  unfold Generation.encodeOrganism, bind, load, enc_Encode, lift, ret.
  destruct (heap st !! p) as [o|]; [|discriminate]. cbn.
  destruct (Organism.Genotype o) as [genotype|] eqn:Hgen.
  - destruct (Genome_Write genotype) as [data|]; [|discriminate]. cbn.
    intros [= _ <-]. split; [done|]. cbn. eexists o, _. rewrite <- !app_assoc, Hgen.
    split_and!; reflexivity.
  - intros [= _ <-]. split; [done|]. cbn. eexists o, _. rewrite <- !app_assoc, Hgen.
    split_and!; reflexivity.
Qed.

(** X5.  When [Generation.Encode] succeeds it has only read the organisms:
    the store of organisms is unchanged, and the stream has grown by the
    twelve fields of the generation followed by nothing for a nil champion,
    by five values for a champion without a genotype and by seven for a
    champion with one. *)
Theorem Encode_reads_only (g : Generation.t) (st st' : Store) (u : unit) :
  Generation.Encode g st = Ok (u, st') ->
  heap st' = heap st
  /\ exists enc,
       wire st' = wire st ++ Generation.fields g ++ enc
       /\ match Generation.Champion g with
          | None => enc = []
          | Some p =>
              exists o, heap st !! p = Some o
                        /\ length enc = match Organism.Genotype o with
                                        | Some _ => 7%nat
                                        | None => 5%nat
                                        end
          end.
Proof.
  destruct st as [h w]. rewrite Encode_fields.
  destruct (Generation.Champion g) as [p|].
  - intros [Hh (o & enc & Ho & Hw & Hlen)]%encodeOrganism_Ok. cbn in Hh, Hw, Ho.
    split; [done|]. exists enc. rewrite Hw, <- app_assoc. split; [done|]. eauto.
  - intros [= _ <-]. split; [done|]. exists []. by rewrite app_nil_r.
Qed.
End CodecShape.

(** * The header of an experiment *)

Section ExperimentHeader.
Context `{GenomeAPI}.

Lemma timesM_length {A} (f : M A) (n : nat) :
  forall (st st' : Store) (xs : list A),
    timesM n f st = Ok (xs, st') -> length xs = n.
Proof.
  induction n as [|n IH]; intros st st' xs; cbn [timesM].
  - intros [= <- _]. done.
  - intros (x & st1 & _ & (xs' & st2 & Hxs & [= <- _])%bind_Ok)%bind_Ok.
    cbn. f_equal. exact (IH _ _ _ Hxs).
Qed.

Lemma plain_Decode_Ok {A} (as_type : Value -> option A) (st st' : Store) (a : A) :
  dec_Decode as_type st = Ok (a, st') ->
  exists v, wire st = v :: wire st' /\ as_type v = Some a /\ heap st' = heap st.
Proof.
  unfold dec_Decode. destruct (wire st) as [|v rest]; [discriminate|].
  destruct (as_type v) as [a'|] eqn:Hv; [|discriminate]. intros [= <- <-].
  exists v. cbn. done.
Qed.

(** X6.  The header of [Experiment.Decode].  A successful call has read
    the identity, the name and the number of trials of its result from the
    front of the stream, in this order, and has kept the receiver's
    [RandSeed] and [MaxFitnessScore]; a negative trial count panics in
    [make]; and a read error of the header comes back as it is, not wrapped
    with a message. *)
Theorem Experiment_Decode_header (e : Experiment.t) (st : Store) :
  (forall e' st',
     Experiment.Decode e st = Ok (e', st') ->
     exists rest,
       wire st = VInt (Experiment.Id e') :: VString (Experiment.Name e')
                 :: VInt (Z.of_nat (length (Experiment.Trials e'))) :: rest
       /\ Experiment.RandSeed e' = Experiment.RandSeed e
       /\ Experiment.MaxFitnessScore e' = Experiment.MaxFitnessScore e)
  /\ (forall id name n rest,
        wire st = VInt id :: VString name :: VInt n :: rest -> n < 0 ->
        Experiment.Decode e st = Err Panic)
  /\ (forall id name,
        (wire st = [] \/ wire st = [VInt id] \/ wire st = [VInt id; VString name]) ->
        Experiment.Decode e st = Err EOF)
  /\ (forall v rest,
        wire st = v :: rest -> as_int v = None ->
        Experiment.Decode e st = Err Mismatch).
Proof.
  split_and!.
  - intros e' st'. unfold Experiment.Decode.
    intros (id & st1 & (v1 & Hw1 & Hv1 & _)%plain_Decode_Ok & Hd)%bind_Ok.
    apply bind_Ok in Hd as (name & st2 & (v2 & Hw2 & Hv2 & _)%plain_Decode_Ok & Hd).
    apply bind_Ok in Hd as (n & st3 & (v3 & Hw3 & Hv3 & _)%plain_Decode_Ok & Hd).
    destruct (Z.ltb_spec n 0) as [|Hn]; [discriminate|].
    apply bind_Ok in Hd as (trials & st4 & Htrials%timesM_length & [= <- _]).
    destruct v1; try discriminate Hv1. injection Hv1 as ->.
    destruct v2; try discriminate Hv2. injection Hv2 as ->.
    destruct v3; try discriminate Hv3. injection Hv3 as ->.
    exists (wire st3). cbn. rewrite Hw1, Hw2, Hw3, Htrials, Z2Nat.id by lia. done.
  - intros id name n rest Hw Hn. unfold Experiment.Decode, bind, dec_Decode.
    rewrite Hw. cbn. by destruct (Z.ltb_spec n 0); [|lia].
  - intros id name Hw. unfold Experiment.Decode, bind, dec_Decode.
    destruct Hw as [-> | [-> | ->]]; reflexivity.
  - intros v rest Hw Hv. unfold Experiment.Decode, bind, dec_Decode.
    by rewrite Hw, Hv.
Qed.
End ExperimentHeader.

(** * What [FillPopulationStatistics] records *)

(** ** The order of binary64 *)

Lemma SFcompare_Lt_trans (a b c : spec_float) :
  SFcompare a b = Some Lt -> SFcompare b c = Some Lt -> SFcompare a c = Some Lt.
Proof.
  destruct a as [sa|sa| |sa ma ea], b as [sb|sb| |sb mb eb], c as [sc|sc| |sc mc ec];
    try destruct sa; try destruct sb; try destruct sc; cbn;
    try discriminate; try reflexivity;
    rewrite ?Pos.compare_cont_spec; cbn;
    destruct (Z.compare_spec ea eb), (Z.compare_spec eb ec), (Z.compare_spec ea ec);
    subst; try discriminate; try reflexivity; try lia;
    destruct (Pos.compare_spec ma mb), (Pos.compare_spec mb mc), (Pos.compare_spec ma mc);
    subst; cbn; try discriminate; try reflexivity; try lia.
Qed.

Lemma SFcompare_Lt_irrefl (a : spec_float) : SFcompare a a <> Some Lt.
Proof.
  destruct a as [sa|sa| |sa ma ea]; try destruct sa; cbn; try discriminate;
    rewrite ?Pos.compare_cont_spec, Z.compare_refl, Pos.compare_refl; discriminate.
Qed.

Lemma ltb_Lt (x y : float) : (x <? y)%float = true <-> SFcompare (Prim2SF x) (Prim2SF y) = Some Lt.
Proof.
  rewrite FloatAxioms.ltb_spec. unfold SFltb.
  destruct (SFcompare _ _) as [[]|]; split; congruence.
Qed.

Lemma ltb_trans (x y z : float) :
  (x <? y)%float = true -> (y <? z)%float = true -> (x <? z)%float = true.
Proof. rewrite !ltb_Lt. apply SFcompare_Lt_trans. Qed.

Lemma ltb_irrefl (x : float) : (x <? x)%float = false.
Proof.
  destruct (x <? x)%float eqn:E; [|done].
  apply ltb_Lt in E. by apply SFcompare_Lt_irrefl in E.
Qed.

Lemma ltb_asym (x y : float) : (x <? y)%float = true -> (y <? x)%float = false.
Proof.
  intros Hxy. destruct (y <? x)%float eqn:E; [|done].
  pose proof (ltb_trans _ _ _ Hxy E) as Hxx. by rewrite ltb_irrefl in Hxx.
Qed.

Section FillMore.
Context `{GenomeAPI}.
Variable Less : Organism.t -> Organism.t -> bool.
Variable organismComplexity : Organism.t -> Z.

(** The loop writes the three vectors and the champion, and nothing else;
    on a solved generation it does not write the champion either. *)
Lemma fill_from_frame (h : list Organism.t) (species : list Species.t) :
  forall (i : nat) (maxFitness : float64) (g g' : Generation.t) (species' : list Species.t),
    Generation.fill_from Less organismComplexity h i species maxFitness g = Some (g', species') ->
    Generation.Id g' = Generation.Id g
    /\ Generation.Executed g' = Generation.Executed g
    /\ Generation.Duration g' = Generation.Duration g
    /\ Generation.Solved g' = Generation.Solved g
    /\ Generation.WinnerEvals g' = Generation.WinnerEvals g
    /\ Generation.WinnerNodes g' = Generation.WinnerNodes g
    /\ Generation.WinnerGenes g' = Generation.WinnerGenes g
    /\ Generation.TrialId g' = Generation.TrialId g
    /\ (Generation.Solved g = true -> Generation.Champion g' = Generation.Champion g).
Proof.
  induction species as [|sp rest IH]; intros i mf g g' species' Hfill; cbn in Hfill.
  - injection Hfill as <- _. split_and!; done.
  - destruct (sort_Reverse Less h (Species.Organisms sp)) as [[|p0 sorted]|]; try done.
    destruct (h !! p0) as [org0|]; try done.
    cbn [Generation.set_statistics Generation.Solved] in Hfill.
    destruct (Generation.Solved g) eqn:Hsolved; cbn [negb] in Hfill;
      [|destruct (PrimFloat.ltb _ _)];
      (destruct (Generation.fill_from _ _ _ _ _ _ _) as [[g2 rest2]|] eqn:Hrec;
       [|done]; injection Hfill as <- _;
       apply IH in Hrec; cbn in Hrec; rewrite ?Hsolved in Hrec;
       destruct Hrec as (? & ? & ? & ? & ? & ? & ? & ? & Hc);
       split_and!; try done; try congruence).
Qed.

(** X7.  [FillPopulationStatistics] writes [Diversity], the three vectors
    and the champion only: the identity, the times, the solved flag, the
    winner counts and the trial of the generation stay; and on a generation
    that is already solved the champion stays too. *)
Theorem FillPopulationStatistics_frame
    (h : list Organism.t) (g g' : Generation.t) (pop pop' : Population.t) :
  Generation.FillPopulationStatistics Less organismComplexity h g pop = Some (g', pop') ->
  Generation.Id g' = Generation.Id g
  /\ Generation.Executed g' = Generation.Executed g
  /\ Generation.Duration g' = Generation.Duration g
  /\ Generation.Solved g' = Generation.Solved g
  /\ Generation.WinnerEvals g' = Generation.WinnerEvals g
  /\ Generation.WinnerNodes g' = Generation.WinnerNodes g
  /\ Generation.WinnerGenes g' = Generation.WinnerGenes g
  /\ Generation.TrialId g' = Generation.TrialId g
  /\ (Generation.Solved g = true -> Generation.Champion g' = Generation.Champion g).
Proof.
  unfold Generation.FillPopulationStatistics. intros Hfill.
  destruct (Generation.fill_from _ _ _ _ _ _ _) as [[g2 species2]|] eqn:Hloop; [|done].
  injection Hfill as <- _. apply fill_from_frame in Hloop. exact Hloop.
Qed.

(** What the loop leaves at each index: below [i] what was there, and at
    [i + j] the statistics of the organism the sort put first in species
    [j]. *)
Lemma fill_from_entries (h : list Organism.t) (species : list Species.t) :
  forall (i : nat) (maxFitness : float64) (g g' : Generation.t) (species' : list Species.t),
    Generation.fill_from Less organismComplexity h i species maxFitness g = Some (g', species') ->
    (i + length species <= length (Generation.Fitness g))%nat ->
    (i + length species <= length (Generation.Age g))%nat ->
    (i + length species <= length (Generation.Complexity g))%nat ->
    Forall2 (fun sp sp' => Species.Age sp' = Species.Age sp
                           /\ Species.Organisms sp' ≡ₚ Species.Organisms sp)
            species species'
    /\ (forall k, (k < i)%nat ->
          Generation.Fitness g' !! k = Generation.Fitness g !! k
          /\ Generation.Age g' !! k = Generation.Age g !! k
          /\ Generation.Complexity g' !! k = Generation.Complexity g !! k)
    /\ (forall j sp', species' !! j = Some sp' ->
          exists p0 org0,
            head (Species.Organisms sp') = Some p0 /\ h !! p0 = Some org0
            /\ Generation.Age g' !! (i + j)%nat = Some (Go.float64_of_int (Species.Age sp'))
            /\ Generation.Fitness g' !! (i + j)%nat = Some (Organism.Fitness org0)
            /\ Generation.Complexity g' !! (i + j)%nat
               = Some (Go.float64_of_int (organismComplexity org0))).
Proof.
  induction species as [|sp rest IH]; intros i mf g g' species' Hfill Hf Ha Hc;
    cbn in Hfill.
  - injection Hfill as <- <-. split_and!; [constructor|done|intros j sp' Hj; done].
  - destruct (sort_Reverse Less h (Species.Organisms sp)) as [[|p0 sorted]|] eqn:Hsort;
      try done.
    apply sort_Reverse_Permutation in Hsort.
    destruct (h !! p0) as [org0|] eqn:Hp0; try done.
    cbn [length] in Hf, Ha, Hc.
    assert (Hrec : exists mf' g2,
               Generation.fill_from Less organismComplexity h (S i) rest mf' g2
               = Some (g', tail species')
               /\ species' = Species.mk (Species.Age sp) (p0 :: sorted) :: tail species'
               /\ Generation.Fitness g2 = <[i := Organism.Fitness org0]> (Generation.Fitness g)
               /\ Generation.Age g2
                  = <[i := Go.float64_of_int (Species.Age sp)]> (Generation.Age g)
               /\ Generation.Complexity g2
                  = <[i := Go.float64_of_int (organismComplexity org0)]>
                      (Generation.Complexity g)).
    { destruct (negb _); [destruct (PrimFloat.ltb _ _)|];
        (destruct (Generation.fill_from _ _ _ _ _ _ _) as [[g2 rest2]|] eqn:Hrec;
         [|done]; injection Hfill as <- <-; eexists _, _; split; [exact Hrec|];
         split_and!; reflexivity). }
    destruct Hrec as (mf' & g2 & Hrec & Hsp & Hf2 & Ha2 & Hc2).
    apply IH in Hrec as (Hperm & Hbelow & Hat);
      [|rewrite ?Hf2, ?Ha2, ?Hc2, length_insert; lia..].
    rewrite Hsp. split_and!.
    + constructor; [split; [done|exact Hsort]|exact Hperm].
    + intros k Hk. destruct (Hbelow k ltac:(lia)) as (-> & -> & ->).
      rewrite Hf2, Ha2, Hc2, !list_lookup_insert_ne by lia. done.
    + intros [|j] sp' Hj; cbn in Hj.
      * injection Hj as <-. exists p0, org0. rewrite Nat.add_0_r.
        destruct (Hbelow i ltac:(lia)) as (-> & -> & ->).
        rewrite Hf2, Ha2, Hc2, !list_lookup_insert_eq by lia. done.
      * destruct (Hat j sp' Hj) as (q & oq & ? & ? & ? & ? & ?).
        exists q, oq. replace (i + S j)%nat with (S i + j)%nat by lia. done.
Qed.

(** X8.  After [FillPopulationStatistics] the population holds the same
    species with the same ages, each with its organisms reordered, and entry
    [i] of the three vectors is the age of species [i] and the fitness and
    complexity of the organism that now comes first in it. *)
Theorem FillPopulationStatistics_representatives
    (h : list Organism.t) (g g' : Generation.t) (pop pop' : Population.t) :
  Generation.FillPopulationStatistics Less organismComplexity h g pop = Some (g', pop') ->
  Forall2 (fun sp sp' => Species.Age sp' = Species.Age sp
                         /\ Species.Organisms sp' ≡ₚ Species.Organisms sp)
          (Population.Species pop) (Population.Species pop')
  /\ (forall i sp', Population.Species pop' !! i = Some sp' ->
        exists p0 org0,
          head (Species.Organisms sp') = Some p0 /\ h !! p0 = Some org0
          /\ Generation.Age g' !! i = Some (Go.float64_of_int (Species.Age sp'))
          /\ Generation.Fitness g' !! i = Some (Organism.Fitness org0)
          /\ Generation.Complexity g' !! i
             = Some (Go.float64_of_int (organismComplexity org0))).
Proof.
  unfold Generation.FillPopulationStatistics. intros Hfill.
  destruct (Generation.fill_from _ _ _ _ _ _ _) as [[g2 species2]|] eqn:Hloop; [|done].
  injection Hfill as <- <-.
  apply fill_from_entries in Hloop as (Hperm & _ & Hat);
    [|cbn; rewrite length_replicate; lia..].
  split; [exact Hperm|]. intros i sp' Hi. exact (Hat i sp' Hi).
Qed.

(** The running maximum of the loop: at the end the champion is the one the
    generation had, with the maximum where it started, or it is an organism
    whose fitness is the maximum; and no organism that comes first in its
    species is fitter than the maximum. *)
Lemma fill_from_max (h : list Organism.t) (species : list Species.t) :
  forall (i : nat) (maxFitness : float64) (g g' : Generation.t) (species' : list Species.t),
    Generation.fill_from Less organismComplexity h i species maxFitness g = Some (g', species') ->
    Generation.Solved g = false ->
    exists maxFitness',
      ((maxFitness' = maxFitness /\ Generation.Champion g' = Generation.Champion g)
       \/ exists p o, Generation.Champion g' = Some p /\ h !! p = Some o
                      /\ Organism.Fitness o = maxFitness'
                      /\ (maxFitness <? maxFitness')%float = true)
      /\ forall sp' p0 org0,
           sp' ∈ species' -> head (Species.Organisms sp') = Some p0 -> h !! p0 = Some org0 ->
           (maxFitness' <? Organism.Fitness org0)%float = false.
Proof.
  induction species as [|sp rest IH]; intros i mf g g' species' Hfill Hsolved;
    cbn in Hfill.
  - injection Hfill as <- <-. exists mf. split; [by left|].
    intros sp' p0 org0 Hin. by apply elem_of_nil in Hin.
  - destruct (sort_Reverse Less h (Species.Organisms sp)) as [[|p0 sorted]|]; try done.
    destruct (h !! p0) as [org0|] eqn:Hp0; try done.
    cbn [Generation.set_statistics Generation.Solved] in Hfill.
    rewrite Hsolved in Hfill. cbn [negb] in Hfill.
    destruct (mf <? Organism.Fitness org0)%float eqn:Hlt;
      (destruct (Generation.fill_from _ _ _ _ _ _ _) as [[g2 rest2]|] eqn:Hrec;
       [|done]; injection Hfill as <- <-;
       apply IH in Hrec as (mf' & Hchamp & Hheads); [|done]; exists mf'; split).
    + right. destruct Hchamp as [[-> Hc]|(p & o & Hc & Hp & Ho & Hlt')].
      * exists p0, org0. done.
      * exists p, o. split_and!; try done. by apply (ltb_trans _ _ _ Hlt).
    + intros sp' q oq [->|Hin]%elem_of_cons Hq Hoq.
      * cbn in Hq. injection Hq as <-. rewrite Hp0 in Hoq. injection Hoq as <-.
        destruct Hchamp as [[-> _]|(_ & _ & _ & _ & _ & Hlt')].
        -- apply ltb_irrefl.
        -- by apply ltb_asym.
      * by apply (Hheads sp' q oq).
    + destruct Hchamp as [[-> Hc]|(p & o & Hc & Hp & Ho & Hlt')].
      * by left.
      * right. exists p, o. done.
    + intros sp' q oq [->|Hin]%elem_of_cons Hq Hoq.
      * cbn in Hq. injection Hq as <-. rewrite Hp0 in Hoq. injection Hoq as <-.
        destruct Hchamp as [[-> _]|(_ & _ & _ & _ & _ & Hlt')]; [done|].
        destruct (mf' <? Organism.Fitness org0)%float eqn:Hgt; [|done].
        by rewrite (ltb_trans _ _ _ Hlt' Hgt) in Hlt.
      * by apply (Hheads sp' q oq).
Qed.

(** X9.  On a generation that is not solved, [FillPopulationStatistics]
    leaves as champion an organism of maximal fitness among the species'
    first organisms: whenever an entry of [Fitness] is above the initial
    maximum [float64(math.MinInt64)], the generation has a champion and the
    champion is not less fit than that entry. *)
Theorem FillPopulationStatistics_champion_is_fittest
    (h : list Organism.t) (g g' : Generation.t) (pop pop' : Population.t) :
  Generation.Solved g = false ->
  Generation.FillPopulationStatistics Less organismComplexity h g pop = Some (g', pop') ->
  forall x : float64,
    x ∈ Generation.Fitness g' ->
    (Go.float64_of_int Go.minInt64 <? x)%float = true ->
    exists p o, Generation.Champion g' = Some p /\ h !! p = Some o
                /\ (Organism.Fitness o <? x)%float = false.
Proof.
  unfold Generation.FillPopulationStatistics. intros Hsolved Hfill x Hx Habove.
  destruct (Generation.fill_from _ _ _ _ _ _ _) as [[g2 species2]|] eqn:Hloop; [|done].
  injection Hfill as <- <-.
  pose proof Hloop as Hshape. apply fill_from_shape in Hshape as (Hlen & _).
  cbn in Hlen. rewrite length_replicate in Hlen.
  pose proof Hloop as Hentries.
  apply fill_from_entries in Hentries as (Hperm & _ & Hat);
    [|cbn; rewrite length_replicate; lia..].
  apply fill_from_max in Hloop as (mf' & Hchamp & Hheads); [|done].
  apply list_elem_of_lookup in Hx as [i Hi].
  assert (Hsp : is_Some (species2 !! i)).
  { apply lookup_lt_is_Some. rewrite <- (Forall2_length _ _ _ Hperm), <- Hlen.
    by eapply lookup_lt_Some. }
  destruct Hsp as [sp' Hsp].
  destruct (Hat i sp' Hsp) as (p0 & org0 & Hhead & Hp0 & _ & Hfit & _).
  cbn in Hfit. rewrite Hi in Hfit. injection Hfit as ->.
  assert (Hle : (mf' <? Organism.Fitness org0)%float = false).
  { apply (Hheads sp' p0 org0); [|done..]. by eapply list_elem_of_lookup_2. }
  destruct Hchamp as [[-> _]|(p & o & Hc & Hp & Ho & _)]; [congruence|].
  exists p, o. rewrite Ho. done.
Qed.
End FillMore.

(** * Counting and ordering *)

Section Counting.

(** The loop of [TrialsSolved] counts past its start exactly when some trial
    is solved. *)
Lemma TrialsSolved_loop_positive (trials : list Trial.t) :
  forall count : Z,
    count < fold_left (fun count t => if Trial.Solved t then count + 1 else count)
                      trials count
    <-> existsb Trial.Solved trials = true.
Proof.
  induction trials as [|tr rest IH]; intros count; cbn.
  - split; [lia|discriminate].
  - destruct (Trial.Solved tr) eqn:Htr; cbn.
    + pose proof (TrialsSolved_loop rest (count + 1)) as [Hb _]. cbn zeta in Hb.
      split; [done|lia].
    + apply IH.
Qed.

(** X10.  [TrialsSolved] is between 0 and the number of trials; it is
    positive exactly when [Solved] reports a solution in some trial, and it
    is the number of trials exactly when every trial is solved. *)
Theorem TrialsSolved_counts (e : Experiment.t) :
  0 <= Experiment.TrialsSolved e <= Z.of_nat (length (Experiment.Trials e))
  /\ (Experiment.Solved e = true <-> 0 < Experiment.TrialsSolved e)
  /\ (Experiment.TrialsSolved e = Z.of_nat (length (Experiment.Trials e))
      <-> Forall (fun tr => Trial.Solved tr = true) (Experiment.Trials e)).
Proof.
  unfold Experiment.TrialsSolved, Experiment.Solved.
  pose proof (TrialsSolved_loop (Experiment.Trials e) 0) as [Hb Hall]. cbn zeta in Hb, Hall.
  split_and!; [lia..| |exact Hall].
  symmetry. apply TrialsSolved_loop_positive.
Qed.

(** The sum of the durations of the trials, as a number. *)
Definition exact_total (trials : list Trial.t) : Z :=
  foldr (fun tr total => Trial.Duration tr + total) 0 trials.

Lemma exact_total_bounds (hi : Z) (trials : list Trial.t) :
  Forall (fun tr => 0 <= Trial.Duration tr <= hi) trials ->
  0 <= exact_total trials <= Z.of_nat (length trials) * hi.
Proof.
  induction 1 as [|tr rest Htr _ IH]; cbn [exact_total foldr length]; [lia|].
  fold (exact_total rest). rewrite Nat2Z.inj_succ, Z.mul_succ_l. lia.
Qed.

(** The running total of non-negative durations whose sum fits an [int64]
    never wraps around. *)
Lemma duration_total_exact (hi : Z) (trials : list Trial.t) :
  Forall (fun tr => 0 <= Trial.Duration tr <= hi) trials ->
  forall total : Z,
    0 <= total -> total + exact_total trials <= Go.maxInt64 ->
    fold_left (fun total t => Go.wrap64 (total + Trial.Duration t)) trials total
    = total + exact_total trials.
Proof.
  induction 1 as [|tr rest Htr Hrest IH]; intros total Htotal Hmax;
    cbn [fold_left exact_total foldr] in *; [lia|].
  fold (exact_total rest) in *.
  pose proof (exact_total_bounds hi rest Hrest) as Hrest0.
  assert (Hw : Go.wrap64 (total + Trial.Duration tr) = total + Trial.Duration tr).
  { unfold Go.wrap64, Go.maxInt64 in *. rewrite Z.mod_small; lia. }
  rewrite Hw, IH by lia. lia.
Qed.

(** X11.  For an experiment with trials, all of a duration between 0 and
    [hi] and with the sum of the durations not above the largest [int64],
    [AvgTrialDuration] is that sum divided by the number of trials, the
    quotient truncated, and it is between 0 and [hi]; without trials it is
    the empty duration. *)
Theorem AvgTrialDuration_bounds (EmptyDuration hi : Z) (e : Experiment.t) :
  Forall (fun tr => 0 <= Trial.Duration tr <= hi) (Experiment.Trials e) ->
  exact_total (Experiment.Trials e) <= Go.maxInt64 ->
  if decide (Experiment.Trials e = [])
  then Experiment.AvgTrialDuration EmptyDuration e = EmptyDuration
  else Experiment.AvgTrialDuration EmptyDuration e
       = Z.quot (exact_total (Experiment.Trials e))
                (Z.of_nat (length (Experiment.Trials e)))
       /\ 0 <= Experiment.AvgTrialDuration EmptyDuration e <= hi.
Proof.
  intros Hd Hmax. unfold Experiment.AvgTrialDuration.
  destruct (decide (Experiment.Trials e = [])) as [->|Hne]; [reflexivity|].
  rewrite (duration_total_exact hi _ Hd 0) by lia. rewrite Z.add_0_l.
  pose proof (exact_total_bounds hi _ Hd) as Ht.
  set (total := exact_total _) in *.
  set (n := Z.of_nat (length (Experiment.Trials e))) in *.
  assert (Hn : 0 < n) by (subst n; destruct (Experiment.Trials e); [done|cbn; lia]).
  replace (0 <? n) with true by (symmetry; apply Z.ltb_lt; lia).
  split_and!; [done| |].
  - apply Z.quot_pos; lia.
  - apply Z.quot_le_upper_bound; lia.
Qed.
End Counting.

(** X12.  The order [Generations.Less] sorts by is a strict order by
    execution time and then id: it is irreflexive, asymmetric and
    transitive, two generations that it does not order have the same time
    and id, and it panics exactly on an index out of range. *)
Theorem Generations_Less_strict_order (gs : list Generation.t) (i j k : nat) :
  Generations.Less gs i i <> Some true
  /\ (Generations.Less gs i j = Some true -> Generations.Less gs j i = Some false)
  /\ (Generations.Less gs i j = Some true -> Generations.Less gs j k = Some true ->
      Generations.Less gs i k = Some true)
  /\ (Generations.Less gs i j = Some false -> Generations.Less gs j i = Some false ->
      exists a b, gs !! i = Some a /\ gs !! j = Some b
                  /\ Generation.Executed a = Generation.Executed b
                  /\ Generation.Id a = Generation.Id b)
  /\ (Generations.Less gs i j = None <->
      (length gs <= i)%nat \/ (length gs <= j)%nat).
Proof.
  unfold Generations.Less. split_and!.
  - destruct (gs !! i) as [a|]; [|done]. rewrite Z.eqb_refl, Z.ltb_irrefl. done.
  - destruct (gs !! i) as [a|], (gs !! j) as [b|]; try done.
    intros [= Hlt]. f_equal.
    destruct (Z.eqb_spec (Generation.Executed a) (Generation.Executed b)) as [Heq|Hne];
      destruct (Z.eqb_spec (Generation.Executed b) (Generation.Executed a)); try lia;
      apply Z.ltb_lt in Hlt; apply Z.ltb_ge; lia.
  - destruct (gs !! i) as [a|], (gs !! j) as [b|], (gs !! k) as [c|]; try done.
    intros [= Hab] [= Hbc]. f_equal.
    destruct (Z.eqb_spec (Generation.Executed a) (Generation.Executed b));
      destruct (Z.eqb_spec (Generation.Executed b) (Generation.Executed c));
      destruct (Z.eqb_spec (Generation.Executed a) (Generation.Executed c));
      apply Z.ltb_lt in Hab; apply Z.ltb_lt in Hbc; try lia; apply Z.ltb_lt; lia.
  - destruct (gs !! i) as [a|], (gs !! j) as [b|]; try done.
    intros [= Hab] [= Hba]. exists a, b. split; [done|]. split; [done|].
    destruct (Z.eqb_spec (Generation.Executed a) (Generation.Executed b));
      destruct (Z.eqb_spec (Generation.Executed b) (Generation.Executed a));
      apply Z.ltb_ge in Hab; apply Z.ltb_ge in Hba; lia.
  - rewrite <- !lookup_ge_None.
    destruct (gs !! i) as [a|], (gs !! j) as [b|]; intuition congruence.
Qed.

(** X13.  [Generations.Swap] exchanges the two generations and nothing
    else: the result has the same length, the entries at [i] and [j] are
    exchanged and every other entry stays, and swapping again restores the
    collection; it panics exactly on an index out of range. *)
Theorem Generations_Swap_exchanges (gs : list Generation.t) (i j : nat) :
  (forall gs',
     Generations.Swap gs i j = Some gs' ->
     length gs' = length gs
     /\ gs' !! i = gs !! j /\ gs' !! j = gs !! i
     /\ (forall k, k <> i -> k <> j -> gs' !! k = gs !! k)
     /\ Generations.Swap gs' i j = Some gs)
  /\ (Generations.Swap gs i j = None <-> (length gs <= i)%nat \/ (length gs <= j)%nat).
Proof.
  unfold Generations.Swap. split.
  - intros gs'. destruct (gs !! i) as [a|] eqn:Ha, (gs !! j) as [b|] eqn:Hb; try done.
    intros [= <-].
    pose proof (lookup_lt_Some _ _ _ Ha) as Hi. pose proof (lookup_lt_Some _ _ _ Hb) as Hj.
    assert (Hi' : <[j:=a]> (<[i:=b]> gs) !! i = Some b).
    { destruct (decide (i = j)) as [->|Hne].
      - rewrite list_lookup_insert_eq by (rewrite length_insert; lia). congruence.
      - rewrite list_lookup_insert_ne by done. by apply list_lookup_insert_eq. }
    assert (Hj' : <[j:=a]> (<[i:=b]> gs) !! j = Some a).
    { apply list_lookup_insert_eq. rewrite length_insert. lia. }
    split_and!.
    + by rewrite !length_insert.
    + congruence.
    + congruence.
    + intros k Hki Hkj. by rewrite !list_lookup_insert_ne.
    + rewrite Hi', Hj'. f_equal. apply list_eq. intros k.
      destruct (decide (k = j)) as [->|Hkj].
      * rewrite list_lookup_insert_eq by (rewrite !length_insert; lia). done.
      * rewrite list_lookup_insert_ne by done.
        destruct (decide (k = i)) as [->|Hki].
        -- rewrite list_lookup_insert_eq by (rewrite !length_insert; lia). done.
        -- by rewrite !list_lookup_insert_ne.
  - rewrite <- !lookup_ge_None.
    destruct (gs !! i) as [a|], (gs !! j) as [b|]; intuition congruence.
Qed.

(** * The result of [Experiment.BestOrganism] *)

Section BestOrganismResult.
Context `{GenomeAPI}.
Variable Less : Organism.t -> Organism.t -> bool.

(** The scan returns one of the candidates. *)
Lemma fitter_fold_elem (h : list Organism.t) (l : list ptr) :
  forall (best : option ptr) (p : ptr),
    fold_left (Trial.fitter h) l best = Some p -> p ∈ l \/ best = Some p.
Proof.
  induction l as [|q l IH]; intros best p; cbn; [by right|].
  intros [Hin|Hq]%IH; [left; by right|].
  unfold Trial.fitter in Hq. destruct best as [b|].
  - destruct (h !! b), (h !! q); try (by right).
    destruct (PrimFloat.ltb _ _); [|by right]. injection Hq as ->. left. left.
  - injection Hq as ->. left. left.
Qed.

Lemma fitter_fold_None (h : list Organism.t) (l : list ptr) :
  fold_left (Trial.fitter h) l None = None -> l = [].
Proof.
  destruct l as [|q l]; [done|]. cbn.
  assert (Hsome : forall l b, fold_left (Trial.fitter h) l (Some b) <> None).
  { clear. induction l as [|q l IH]; intros b; cbn; [done|].
    destruct (h !! b), (h !! q); try apply IH. destruct (PrimFloat.ltb _ _); apply IH. }
  intros Hn. by apply Hsome in Hn.
Qed.

Lemma candidates_valid (h : list Organism.t) (tr : Trial.t) (b : bool) (p : ptr) :
  p ∈ Trial.candidates h tr b -> is_Some (h !! p).
Proof.
  unfold Trial.candidates. intros (g & _ & Hg)%list_elem_of_omap.
  destruct (Generation.Champion g) as [q|]; [|done].
  destruct (h !! q) as [o|] eqn:Hq; [|done].
  destruct (_ || _); [|done]. injection Hg as <-. by rewrite Hq.
Qed.

(** The organism a trial reports exists. *)
Lemma Trial_BestOrganism_valid (h : list Organism.t) (tr : Trial.t) (b : bool) (p : ptr) :
  Trial.BestOrganism h tr b = Some p -> is_Some (h !! p).
Proof.
  unfold Trial.BestOrganism. intros [Hin|?]%fitter_fold_elem; [|done].
  by eapply candidates_valid.
Qed.

Lemma modulo_Flag_is_Some (h h' : list Organism.t) (p : ptr) :
  Forall2 modulo_Flag h h' -> is_Some (h !! p) -> is_Some (h' !! p).
Proof.
  intros Hh Hp. pose proof (modulo_Flag_lookup h h' p Hh) as Hl.
  destruct Hp as [o Ho]. rewrite Ho in Hl. destruct (h' !! p); [eauto|done].
Qed.

(** The loop of [BestOrganism] does not panic, and collects the organisms the
    trials report, in the order of the trials. *)
Lemma best_from_orgs (b : bool) (h : list Organism.t) (trials : list Trial.t) :
  forall (i : Z) (hk : list Organism.t) (orgs : list ptr),
    Forall2 modulo_Flag h hk ->
    exists h',
      Experiment.best_from b i trials hk orgs
      = Some (h', orgs ++ omap (fun tr => Trial.BestOrganism h tr b) trials)
      /\ Forall2 modulo_Flag h h'.
Proof.
  induction trials as [|tr rest IH]; intros i hk orgs Hh; cbn.
  - exists hk. by rewrite app_nil_r.
  - rewrite <- (Trial_BestOrganism_modulo_Flag h hk tr b Hh).
    destruct (Trial.BestOrganism h tr b) as [org|] eqn:Hbest; [|by apply IH].
    destruct (modulo_Flag_is_Some h hk org Hh) as [o Ho];
      [by eapply Trial_BestOrganism_valid|].
    rewrite Ho.
    destruct (IH (i + 1) (<[org:=Organism.set_Flag o i]> hk) (orgs ++ [org]))
      as (h' & Hloop & Hh'); [by apply modulo_Flag_insert|].
    exists h'. rewrite Hloop, <- app_assoc. done.
Qed.

(** The last trial that reports a given organism. *)
Lemma last_reporting_trial (f : Trial.t -> option ptr) (p : ptr) (trials : list Trial.t) :
  p ∈ omap f trials ->
  exists k tr, trials !! k = Some tr /\ f tr = Some p
               /\ forall j tr', (k < j)%nat -> trials !! j = Some tr' -> f tr' <> Some p.
Proof.
  induction trials as [|tr rest IH]; cbn; [by intros ?%elem_of_nil|].
  intros Hin. destruct (decide (p ∈ omap f rest)) as [Hrest|Hrest].
  - destruct (IH Hrest) as (k & tr0 & Hk & Hf & Hlast).
    exists (S k), tr0. split_and!; [done..|].
    intros [|j] tr' Hj Hl; [lia|]. apply (Hlast j); [lia|done].
  - exists 0%nat, tr. destruct (f tr) as [q|] eqn:Hq; [|done].
    apply elem_of_cons in Hin as [->|?]; [|done].
    split_and!; [done..|]. intros [|j] tr' Hj Hl Hp; [lia|]. cbn in Hl.
    apply Hrest. apply list_elem_of_omap. exists tr'. split; [|done].
    by eapply list_elem_of_lookup_2.
Qed.

(** X14.  [Experiment.BestOrganism] always returns.  Either no trial
    reports an organism, and the result is [(nil, -1, false)] with the store
    unchanged; or the result is [(org, k, true)] where [org] is the organism
    trial [k] reports and [k] is the flag now written on it. *)
Theorem BestOrganism_result (h : list Organism.t) (e : Experiment.t) (onlySolvers : bool) :
  exists h' r,
    Experiment.BestOrganism Less h e onlySolvers = Some (h', r)
    /\ ((r = (None, -1, false) /\ h' = h
         /\ forall tr, tr ∈ Experiment.Trials e -> Trial.BestOrganism h tr onlySolvers = None)
        \/ exists p k tr o,
             r = (Some p, Z.of_nat k, true)
             /\ Experiment.Trials e !! k = Some tr
             /\ Trial.BestOrganism h tr onlySolvers = Some p
             /\ h !! p = Some o
             /\ h' !! p = Some (Organism.set_Flag o (Z.of_nat k))).
Proof.
  unfold Experiment.BestOrganism.
  destruct (best_from_orgs onlySolvers h (Experiment.Trials e) 0 h [])
    as (h' & Hloop & Hh'); [by apply Forall_Forall2_diag, Forall_true|].
  rewrite Hloop. cbn [app].
  set (orgs := omap _ _) in *.
  destruct orgs as [|p1 orgs'] eqn:Horgs.
  - exists h', (None, -1, false). cbn. split; [done|]. left.
    assert (Hnone : forall tr, tr ∈ Experiment.Trials e ->
                               Trial.BestOrganism h tr onlySolvers = None).
    { intros tr Htr. destruct (Trial.BestOrganism h tr onlySolvers) as [p|] eqn:Hp; [|done].
      assert (p ∈ orgs) by (apply list_elem_of_omap; eauto).
      subst orgs. rewrite Horgs in *. by apply elem_of_nil in H0. }
    split_and!; [done| |done].
    rewrite best_from_not_found in Hloop by done. congruence.
  - assert (Hvalid : Forall (fun p => is_Some (h' !! p)) (p1 :: orgs')).
    { rewrite <- Horgs. apply Forall_forall. intros p (tr & _ & Hp)%list_elem_of_omap.
      apply (modulo_Flag_is_Some h h' p Hh'). by eapply Trial_BestOrganism_valid. }
    destruct (sort_Reverse_total Less h' _ Hvalid) as [sorted Hsort].
    pose proof (sort_Reverse_Permutation _ _ _ _ Hsort) as Hperm.
    replace (0 <? Z.of_nat (length (p1 :: orgs'))) with true by done.
    rewrite Hsort.
    destruct sorted as [|p0 sorted]; [by apply Permutation_nil_l in Hperm|].
    assert (Hin : p0 ∈ omap (fun tr => Trial.BestOrganism h tr onlySolvers)
                       (Experiment.Trials e)).
    { fold orgs. rewrite Horgs, <- Hperm. left. }
    destruct (last_reporting_trial _ _ _ Hin) as (k & tr & Hk & Hbest & Hlast).
    pose proof Hloop as Hflag.
    apply (best_from_Flag onlySolvers h) in Hflag as [Hflag _];
      [|by apply Forall_Forall2_diag, Forall_true].
    destruct (Hflag k tr p0 Hk Hbest Hlast) as (o & Ho & Ho').
    rewrite Z.add_0_l in Ho'. rewrite Ho'.
    eexists _, _. split; [reflexivity|]. right.
    exists p0, k, tr, o. done.
Qed.
End BestOrganismResult.

(** * Epochs and winners per trial *)

(** The number of generations of a trial, as [EpochsPerTrial] stores it. *)
Definition epochs_of (t : Trial.t) : float64 :=
  Go.float64_of_int (Z.of_nat (length (Trial.Generations t))).

Lemma epochs_from_entries (trials : list Trial.t) :
  forall (i : nat) (x : list float64),
    (i + length trials <= length x)%nat ->
    length (Experiment.epochs_from i trials x) = length x
    /\ (forall k, (k < i)%nat -> Experiment.epochs_from i trials x !! k = x !! k)
    /\ (forall j t, trials !! j = Some t ->
          Experiment.epochs_from i trials x !! (i + j)%nat = Some (epochs_of t)).
Proof.
  induction trials as [|t rest IH]; intros i x Hlen; cbn [Experiment.epochs_from length] in *.
  - split_and!; [done|done|intros j t Hj; done].
  - destruct (IH (S i) (<[i := epochs_of t]> x)) as (Hl & Hbelow & Hat);
      [rewrite length_insert; lia|].
    fold (epochs_of t). rewrite length_insert in Hl. split_and!; [done| |].
    + intros k Hk. rewrite Hbelow by lia. by rewrite list_lookup_insert_ne by lia.
    + intros [|j] t' Hj; cbn in Hj.
      * injection Hj as <-. rewrite Nat.add_0_r, Hbelow by lia.
        apply list_lookup_insert_eq. lia.
      * replace (i + S j)%nat with (S i + j)%nat by lia. by apply Hat.
Qed.

Lemma EpochsPerTrial_fmap (e : Experiment.t) :
  Experiment.EpochsPerTrial e = epochs_of <$> Experiment.Trials e.
Proof.
  unfold Experiment.EpochsPerTrial.
  destruct (epochs_from_entries (Experiment.Trials e) 0
              (replicate (length (Experiment.Trials e)) 0%float))
    as (Hl & _ & Hat); [rewrite length_replicate; lia|].
  rewrite length_replicate in Hl.
  apply list_eq. intros k. rewrite list_lookup_fmap.
  destruct (Experiment.Trials e !! k) as [t|] eqn:Hk; cbn.
  - exact (Hat k t Hk).
  - apply lookup_ge_None. rewrite Hl. by apply lookup_ge_None.
Qed.

Lemma fold_left_add_fmap (f : Trial.t -> float64) (trials : list Trial.t) :
  forall total : float64,
    fold_left (fun total t => (total + f t)%float) trials total
    = fold_left PrimFloat.add (f <$> trials) total.
Proof. induction trials as [|t rest IH]; intros total; cbn; [done|apply IH]. Qed.

(** X15.  [EpochsPerTrial] has one entry per trial, entry [i] being the
    number of generations of trial [i]; and [AvgGenerationsPerTrial] is the
    sum of these entries, added in order from 0, divided by the number of
    trials (0 without trials). *)
Theorem EpochsPerTrial_entries (e : Experiment.t) :
  length (Experiment.EpochsPerTrial e) = length (Experiment.Trials e)
  /\ (forall i t, Experiment.Trials e !! i = Some t ->
        Experiment.EpochsPerTrial e !! i
        = Some (Go.float64_of_int (Z.of_nat (length (Trial.Generations t)))))
  /\ Experiment.AvgGenerationsPerTrial e
     = if 0 <? Z.of_nat (length (Experiment.Trials e))
       then (Floats.sum (Experiment.EpochsPerTrial e)
             / Go.float64_of_int (Z.of_nat (length (Experiment.Trials e))))%float
       else 0%float.
Proof.
  rewrite EpochsPerTrial_fmap. split_and!.
  - by rewrite length_fmap.
  - intros i t Hi. by rewrite list_lookup_fmap, Hi.
  - unfold Experiment.AvgGenerationsPerTrial, Floats.sum.
    by rewrite (fold_left_add_fmap epochs_of).
Qed.


Lemma winner_loop_unsolved (trials : list Trial.t) (acc : option (Z * Z * Z * Z * Z)) :
  Forall (fun tr => Trial.Solved tr = false) trials ->
  fold_left Experiment.winner_step trials acc = acc.
Proof.
  intros Hun. revert acc. induction Hun as [|tr rest Htr _ IH]; intros acc; cbn; [done|].
  rewrite IH. unfold Experiment.winner_step. rewrite Htr.
  by destruct acc as [[[[[? ?] ?] ?] ?]|].
Qed.

(** X16.  When no trial is solved, [AvgWinnerStatistics] returns -1 for
    each of its four averages: the loop adds nothing, the count stays 0 and
    the division by it is not reached. *)
Theorem AvgWinnerStatistics_unsolved (e : Experiment.t) :
  Experiment.TrialsSolved e = 0 ->
  Experiment.AvgWinnerStatistics e
  = Some ((-1)%float, (-1)%float, (-1)%float, (-1)%float).
Proof.
  intros Hzero. unfold Experiment.AvgWinnerStatistics.
  rewrite winner_loop_unsolved; [done|].
  pose proof (TrialsSolved_loop_positive (Experiment.Trials e) 0) as Hpos.
  unfold Experiment.TrialsSolved in Hzero. rewrite Hzero in Hpos.
  apply Forall_forall. intros tr Htr.
  destruct (Trial.Solved tr) eqn:Hs; [|done].
  assert (existsb Trial.Solved (Experiment.Trials e) = true) as Hex.
  { apply existsb_exists. exists tr. split; [by apply list_elem_of_In|done]. }
  apply Hpos in Hex. lia.
Qed.

(** * The efficiency score of a short experiment *)

Section EfficiencyFewTrials.
Context `{GenomeAPI}.
Variable organismComplexity : Organism.t -> Z.
Variable EmptyDuration : Z.
Variable Log : float64 -> float64.

(** IEEE 754: a product with zero is a zero or not a number, and in no case
    above zero. *)
Lemma mul_zero_not_positive (x : float64) : (0 <? x * 0)%float = false.
Proof.
  rewrite FloatAxioms.ltb_spec, FloatAxioms.mul_spec.
  change (Prim2SF 0) with (S754_zero false).
  by destruct (Prim2SF x) as [[]|[]| |[] m e].
Qed.

(** X17.  With fewer than two trials [EfficiencyScore] skips the loop over
    the trials, so the mean complexity is 0 and the penalty, a product with
    it, is a zero or not a number: the test [score > 0] fails and the score
    returned is that penalty, never a positive number, whether the trial
    was solved or not. *)
Theorem EfficiencyScore_few_trials_not_positive (h : list Organism.t) (e : Experiment.t) :
  Z.of_nat (length (Experiment.Trials e)) <= 1 ->
  Experiment.EfficiencyScore organismComplexity EmptyDuration Log h e
  = Some (Experiment.penaltyScore EmptyDuration e 0%float)
  /\ (0 <? Experiment.penaltyScore EmptyDuration e 0%float)%float = false.
Proof.
  intros Hlen. assert ((0 <? Experiment.penaltyScore EmptyDuration e 0)%float = false)
    as Hscore by apply mul_zero_not_positive.
  split; [|done]. unfold Experiment.EfficiencyScore.
  destruct (Z.ltb_spec 1 (Z.of_nat (length (Experiment.Trials e)))); [lia|].
  by rewrite Hscore.
Qed.
End EfficiencyFewTrials.

(** * Properties of the snake game *)

Lemma Coordinates_eqb_eq (a b : Coordinates.t) :
  Coordinates.eqb a b = true <-> a = b.
Proof.
  unfold Coordinates.eqb. destruct a as [r c], b as [r' c']; cbn.
  rewrite andb_true_iff, !Z.eqb_eq. split; [intros [-> ->]; done|intros [= -> ->]; done].
Qed.

Lemma existsb_eqb_elem (c : Coordinates.t) (body : list Coordinates.t) :
  existsb (fun part => Coordinates.eqb part c) body = true <-> c ∈ body.
Proof.
  rewrite existsb_exists. split.
  - intros (part & Hin%list_elem_of_In & ->%Coordinates_eqb_eq). done.
  - intros Hin. exists c. split; [by apply list_elem_of_In|by apply Coordinates_eqb_eq].
Qed.

Lemma existsb_eqb_not_elem (c : Coordinates.t) (body : list Coordinates.t) :
  existsb (fun part => Coordinates.eqb part c) body = false <-> c ∉ body.
Proof.
  rewrite <- existsb_eqb_elem. destruct (existsb _ body); split; done.
Qed.

Lemma pairs_ind (P : list Z -> Prop) :
  P [] -> (forall x, P [x]) -> (forall x y l, P l -> P (x :: y :: l)) ->
  forall l, P l.
Proof.
  intros Hnil Hone Hstep l.
  assert (P l /\ forall x, P (x :: l)) as [Hl _]; [|done].
  induction l as [|y l [IH1 IH2]]; [done|]. split; [apply IH2|].
  intros x. by apply Hstep.
Qed.

(** The four directions a snake can move in. *)
Definition unit_direction (d : Coordinates.t) : Prop :=
  d ∈ [Coordinates.mk 0 1; Coordinates.mk (-1) 0; Coordinates.mk 0 (-1); Coordinates.mk 1 0].

(** A Go [int]. *)
Ltac pick_direction :=
  vm_compute;
  first [ left; reflexivity
        | right; left; reflexivity
        | right; right; left; reflexivity
        | right; right; right; left; reflexivity ].

Definition is_int (z : Z) : Prop := Go.minInt64 <= z <= Go.maxInt64.

Lemma wrap64_int (z : Z) : is_int z -> Go.wrap64 z = z.
Proof.
  unfold is_int, Go.wrap64, Go.minInt64, Go.maxInt64. intros Hz.
  rewrite Z.mod_small; lia.
Qed.

Lemma wrap64_neg_neg (z : Z) : is_int z -> Go.wrap64 (- Go.wrap64 (- z)) = z.
Proof.
  unfold is_int, Go.minInt64, Go.maxInt64. intros Hz.
  destruct (Z.eq_dec z (-9223372036854775808)) as [->|Hne]; [reflexivity|].
  rewrite (wrap64_int (- z)) by (unfold is_int, Go.minInt64, Go.maxInt64; lia).
  rewrite Z.opp_involutive. apply wrap64_int. done.
Qed.

(** X18.  [ChangeDirection] never touches the body; a left turn undoes a
    right turn and a right turn undoes a left turn, also at the ends of the
    [int] range; without a turn the snake is unchanged; and a direction that
    is one of the four unit steps stays one, with four left turns giving the
    direction back. *)
Theorem ChangeDirection_rotations (s : Snake.t) (action : Action) :
  is_int (Coordinates.Row (Snake.Direction s)) ->
  is_int (Coordinates.Col (Snake.Direction s)) ->
  Snake.Body (Snake.ChangeDirection s action) = Snake.Body s
  /\ Snake.ChangeDirection (Snake.ChangeDirection s RotateRight) RotateLeft = s
  /\ Snake.ChangeDirection (Snake.ChangeDirection s RotateLeft) RotateRight = s
  /\ Snake.ChangeDirection s DoNothing = s
  /\ (unit_direction (Snake.Direction s) ->
      unit_direction (Snake.Direction (Snake.ChangeDirection s action))
      /\ Snake.Direction (Snake.ChangeDirection s action)
         <> Coordinates.mk (- Coordinates.Row (Snake.Direction s))
                           (- Coordinates.Col (Snake.Direction s))
      /\ Snake.ChangeDirection
           (Snake.ChangeDirection
              (Snake.ChangeDirection (Snake.ChangeDirection s RotateLeft) RotateLeft)
              RotateLeft) RotateLeft = s).
Proof.
  destruct s as [body [r c]]; cbn. intros Hr Hc. split_and!.
  - by destruct action.
  - by rewrite wrap64_neg_neg.
  - by rewrite wrap64_neg_neg.
  - done.
  - unfold unit_direction. rewrite !elem_of_cons, elem_of_nil.
    intros [[= -> ->]|[[= -> ->]|[[= -> ->]|[[= -> ->]|[]]]]];
      (split_and!; [destruct action; pick_direction
                   |destruct action; cbn; vm_compute; discriminate
                   |reflexivity]).
Qed.

(** X19.  [Move] fails exactly on a snake without a body.  Otherwise it
    puts the old head moved by the direction in front, keeps the direction,
    and the body grows by one cell when [grow] is set and keeps its length
    when it is not: then it is the new head followed by the old body
    without its last cell. *)
Theorem Move_shape (s : Snake.t) (grow : bool) :
  (Snake.Move s grow = None <-> Snake.Body s = [])
  /\ forall s', Snake.Move s grow = Some s' ->
       exists head,
         Snake.Head s = Some head
         /\ Snake.Head s'
            = Some (Coordinates.mk
                      (Go.wrap64 (Coordinates.Row head + Coordinates.Row (Snake.Direction s)))
                      (Go.wrap64 (Coordinates.Col head + Coordinates.Col (Snake.Direction s))))
         /\ Snake.Direction s' = Snake.Direction s
         /\ (exists newHead,
               Snake.Body s'
               = newHead :: (if grow then Snake.Body s
                             else take (length (Snake.Body s) - 1) (Snake.Body s)))
         /\ length (Snake.Body s')
            = (if grow then S (length (Snake.Body s)) else length (Snake.Body s)).
Proof.
  destruct s as [[|head body] d]; unfold Snake.Move, Snake.Head; cbn [Snake.Body lookup list_lookup].
  - split; [done|discriminate].
  - split; [split; discriminate|]. intros s' [= <-]. exists head.
    cbn [Snake.Body Snake.Direction length]. rewrite !Nat.sub_succ, !Nat.sub_0_r.
    destruct grow; cbn [take lookup list_lookup length].
    + split_and!; try done. eauto.
    + split_and!; try done; [eauto|]. cbn. rewrite length_take. cbn [length]. lia.
Qed.

(** The cells of the board. *)
Definition on_board (g : Game.t) (c : Coordinates.t) : Prop :=
  0 <= Coordinates.Row c < Game.Height g /\ 0 <= Coordinates.Col c < Game.Width g.

(** The state every game starts in and [Update] keeps: the snake has a
    body, all of it on the board and no cell twice, it moves by a unit
    step, and the food is not under it. *)
Record valid (g : Game.t) : Prop := mk_valid {
  valid_body : Snake.Body (Game.Snake g) <> [];
  valid_on_board : Forall (on_board g) (Snake.Body (Game.Snake g));
  valid_NoDup : NoDup (Snake.Body (Game.Snake g));
  valid_direction : unit_direction (Snake.Direction (Game.Snake g));
  valid_food : Game.Food g ∉ Snake.Body (Game.Snake g)
}.

Lemma unit_direction_int (d : Coordinates.t) :
  unit_direction d -> is_int (Coordinates.Row d) /\ is_int (Coordinates.Col d).
Proof.
  unfold unit_direction. rewrite !elem_of_cons, elem_of_nil.
  intros [->|[->|[->|[->|[]]]]]; cbn; unfold is_int, Go.minInt64, Go.maxInt64; lia.
Qed.

Lemma GenerateFood_Done (width height : Z) (snake : Snake.t) :
  forall (rand rand' : list Z) (food : Coordinates.t),
    GenerateFood width height snake rand = Done food rand' ->
    (food ∉ Snake.Body snake)
    /\ 0 < width /\ 0 < height
    /\ exists rejected,
         rand = rejected ++ Coordinates.Row food :: Coordinates.Col food :: rand'
         /\ Nat.Even (length rejected).
Proof.
  intros rand. induction rand as [|row|row col rand2 IH] using pairs_ind;
    intros rand' food; cbn [GenerateFood].
  - destruct (height <=? 0); discriminate.
  - destruct (height <=? 0); [discriminate|]. destruct (width <=? 0); discriminate.
  - destruct (Z.leb_spec height 0); [discriminate|].
    destruct (Z.leb_spec width 0); [discriminate|].
    destruct (Snake.Contains snake (Coordinates.mk row col)) eqn:Hc; cbn [negb].
    + intros (Hfood & _ & _ & rejected & -> & Heven)%IH.
      split_and!; [done|lia|lia|]. exists (row :: col :: rejected). split; [done|].
      cbn [length]. destruct Heven as [k ->]. exists (S k). lia.
    + intros [= <- <-]. split_and!; [|lia|lia|].
      * by apply existsb_eqb_not_elem.
      * exists []. split; [done|]. exists 0%nat. done.
Qed.

(** X20.  When [GenerateFood] returns, the board has a positive width and
    height, the cell it returns is not under the snake, and its row and
    column are the last two numbers drawn, after an even number of rejected
    draws. *)
Theorem GenerateFood_returns_free_cell (width height : Z) (snake : Snake.t)
    (rand rand' : list Z) (food : Coordinates.t) :
  GenerateFood width height snake rand = Done food rand' ->
  Snake.Contains snake food = false
  /\ 0 < width /\ 0 < height
  /\ exists rejected,
       rand = rejected ++ Coordinates.Row food :: Coordinates.Col food :: rand'
       /\ Nat.Even (length rejected).
Proof.
  intros (Hfood & Hw & Hh & Hdraws)%GenerateFood_Done. split_and!; try done.
  by apply existsb_eqb_not_elem.
Qed.

(** Draws as [rand.Intn] makes them: a row below [height], then a column
    below [width], and so on. *)
Fixpoint draws_in_range (width height : Z) (rand : list Z) : Prop :=
  match rand with
  | row :: col :: rand' =>
      0 <= row < height /\ 0 <= col < width /\ draws_in_range width height rand'
  | [row] => 0 <= row < height
  | [] => True
  end.

(** X21.  When the snake covers every cell of the board, [GenerateFood]
    does not return, whatever [rand.Intn] draws: the loop has no exit. *)
Theorem GenerateFood_full_board_never_returns (width height : Z) (snake : Snake.t)
    (rand : list Z) :
  (forall row col, 0 <= row < height -> 0 <= col < width ->
                   Coordinates.mk row col ∈ Snake.Body snake) ->
  draws_in_range width height rand ->
  forall food rand', GenerateFood width height snake rand <> Done food rand'.
Proof.
  intros Hfull. induction rand as [|row|row col rand2 IH] using pairs_ind;
    intros Hrange food rand'; cbn [GenerateFood].
  - destruct (height <=? 0); discriminate.
  - destruct (height <=? 0); [discriminate|]. destruct (width <=? 0); discriminate.
  - destruct (height <=? 0); [discriminate|]. destruct (width <=? 0); [discriminate|].
    destruct Hrange as (Hrow & Hcol & Hrange).
    unfold Snake.Contains.
    rewrite (proj2 (existsb_eqb_elem (Coordinates.mk row col) (Snake.Body snake)))
      by (by apply Hfull).
    cbn [negb]. by apply IH.
Qed.

Lemma NoDup_take {A} (n : nat) (l : list A) : NoDup l -> NoDup (take n l).
Proof.
  intros Hl. apply (sublist_NoDup (take n l) l); [done|]. apply sublist_take.
Qed.

Lemma elem_of_take_elem {A} (n : nat) (l : list A) (x : A) : x ∈ take n l -> x ∈ l.
Proof. intros (i & Hi & _)%elem_of_take. by eapply list_elem_of_lookup_2. Qed.

Lemma ChangeDirection_unit (s : Snake.t) (action : Action) :
  unit_direction (Snake.Direction s) ->
  Snake.Body (Snake.ChangeDirection s action) = Snake.Body s
  /\ unit_direction (Snake.Direction (Snake.ChangeDirection s action)).
Proof.
  destruct s as [body [r c]]; cbn. intros Hd. split; [by destruct action|].
  revert Hd. unfold unit_direction. rewrite !elem_of_cons, elem_of_nil.
  intros [[= -> ->]|[[= -> ->]|[[= -> ->]|[[= -> ->]|[]]]]];
    destruct action; pick_direction.
Qed.

Lemma GenerateFood_Panics (width height : Z) (snake : Snake.t) (rand : list Z) :
  GenerateFood width height snake rand = Panics -> height <= 0 \/ width <= 0.
Proof.
  induction rand as [|row|row col rand2 IH] using pairs_ind; cbn [GenerateFood].
  - destruct (Z.leb_spec height 0); [by left|discriminate].
  - destruct (Z.leb_spec height 0); [by left|].
    destruct (Z.leb_spec width 0); [by right|discriminate].
  - destruct (Z.leb_spec height 0); [by left|].
    destruct (Z.leb_spec width 0); [by right|].
    destruct (negb _); [discriminate|done].
Qed.

(** X22.  [Update] keeps a valid game valid and never panics on one: after
    any action the snake still has a body, all of it on the board and no
    cell twice, it moves by a unit step, and the food is not under it; and
    the board keeps its size. *)
Theorem Update_preserves_valid (g : Game.t) (action : Action) (rand : list Z) :
  valid g ->
  Game.Update g action rand <> Panics
  /\ forall g' rand',
       Game.Update g action rand = Done g' rand' ->
       valid g' /\ Game.Width g' = Game.Width g /\ Game.Height g' = Game.Height g.
Proof.
  intros [Hbody Hboard Hnodup Hdir Hfood].
  destruct (ChangeDirection_unit (Game.Snake g) action Hdir) as [Hb Hd].
  unfold Game.Update.
  destruct (Game.GameState g) eqn:Hstate;
    [|split; [discriminate|intros g' rand' [= <- <-]; done]..].
  remember (Snake.ChangeDirection (Game.Snake g) action) as snake eqn:Hsnake.
  clear Hsnake. rewrite <- Hb in Hbody, Hboard, Hnodup, Hfood. clear Hb Hdir.
  destruct snake as [[|head body] d]; [done|].
  unfold Snake.Move, Snake.Head.
  cbn [Snake.Body Snake.Direction lookup list_lookup] in *.
  set (newHead := Coordinates.mk _ _).
  destruct (_ || _) eqn:Hwall.
  { split; [discriminate|]. intros g' rand' [= <- <-].
    split; [|done]. by constructor. }
  apply orb_false_iff in Hwall as [[[Hw1 Hw2]%orb_false_iff Hw3]%orb_false_iff Hw4].
  apply Z.ltb_ge in Hw1, Hw3. apply Z.leb_gt in Hw2, Hw4.
  assert (on_board g newHead) as Hnew by (unfold on_board; lia).
  destruct (Coordinates.eqb newHead (Game.Food g)) eqn:Hgrow.
  - destruct (existsb _ (head :: body)) eqn:Hcoll.
    { split; [discriminate|]. intros g' rand' [= <- <-].
      split; [|done]. by constructor. }
    apply existsb_eqb_not_elem in Hcoll.
    destruct (GenerateFood _ _ _ rand) as [food rand1| |] eqn:Hgen;
      [|apply GenerateFood_Panics in Hgen; unfold on_board in Hnew; lia
       |split; [discriminate|discriminate]].
    apply GenerateFood_Done in Hgen as (Hfree & _).
    split; [discriminate|]. intros g' rand' [= <- <-].
    split; [|done]. constructor; cbn in *; try done.
    + by constructor.
    + by constructor.
  - assert (newHead <> Game.Food g) as Hne.
    { intros E%Coordinates_eqb_eq. congruence. }
    cbn [length]. rewrite !Nat.sub_succ, !Nat.sub_0_r.
    match goal with
    | |- context [if ?c then Done ?a ?b else ?e] => destruct c eqn:Hcoll
    end.
    { split; [discriminate|]. intros g' rand' [= <- <-].
      split; [|done]. by constructor. }
    split; [discriminate|]. intros g' rand' [= <- <-].
    split; [|done].
    assert (newHead ∉ take (length body) (head :: body)) as Hfresh.
    { destruct (Z.ltb_spec 1 (Z.of_nat (S (length body)))) as [Hlen|Hlen].
      - by apply existsb_eqb_not_elem.
      - destruct body; [cbn; apply not_elem_of_nil|cbn in Hlen; lia]. }
    constructor; cbn [Game.Snake Game.Food Snake.Body Snake.Direction take].
    + done.
    + constructor; [done|]. by apply Forall_take.
    + constructor; [done|]. by apply NoDup_take.
    + done.
    + intros [E|Hin%elem_of_take_elem]%elem_of_cons; [by apply Hne|done].
Qed.

(** X23.  What [Update] returns.  A game that is not running is returned as
    it is, with no number drawn.  A running game never becomes [Winner]:
    it ends in [GameOver] with the body untouched, or it keeps running, and
    then the body has grown by one cell exactly when the new head is on the
    old food (and new food, not under the snake, was generated); otherwise
    the body keeps its length, the food stays and no number is drawn. *)
Theorem Update_never_wins (g g' : Game.t) (action : Action) (rand rand' : list Z) :
  Game.Update g action rand = Done g' rand' ->
  (Game.GameState g <> Running -> g' = g /\ rand' = rand)
  /\ (Game.GameState g = Running ->
      (Game.GameState g' = GameOver
       /\ Snake.Body (Game.Snake g') = Snake.Body (Game.Snake g)
       /\ Game.Food g' = Game.Food g /\ rand' = rand)
      \/ (Game.GameState g' = Running
          /\ exists head,
               Snake.Head (Game.Snake g') = Some head
               /\ if Coordinates.eqb head (Game.Food g)
                  then length (Snake.Body (Game.Snake g'))
                       = S (length (Snake.Body (Game.Snake g)))
                       /\ Game.Food g' ∉ Snake.Body (Game.Snake g')
                  else length (Snake.Body (Game.Snake g'))
                       = length (Snake.Body (Game.Snake g))
                       /\ Game.Food g' = Game.Food g /\ rand' = rand)).
Proof.
  unfold Game.Update. intros Hu. split.
  { intros Hstate. destruct (Game.GameState g); [done|..]; by injection Hu as <- <-. }
  intros Hstate. rewrite Hstate in Hu.
  assert (Snake.Body (Snake.ChangeDirection (Game.Snake g) action)
          = Snake.Body (Game.Snake g)) as Hb by (by destruct action).
  remember (Snake.ChangeDirection (Game.Snake g) action) as snake eqn:Hsnake.
  clear Hsnake. rewrite <- Hb. clear Hb.
  destruct snake as [[|head body] d]; [discriminate|].
  unfold Snake.Move, Snake.Head in *.
  cbn [Snake.Body Snake.Direction lookup list_lookup] in *.
  set (newHead := Coordinates.mk _ _) in *.
  destruct (_ || _); [injection Hu as <- <-; by left|].
  destruct (Coordinates.eqb newHead (Game.Food g)) eqn:Hgrow.
  - destruct (existsb _ (head :: body)); [injection Hu as <- <-; by left|].
    destruct (GenerateFood _ _ _ rand) as [food rand1| |] eqn:Hgen; try discriminate.
    injection Hu as <- <-. right. split; [done|]. exists newHead.
    cbn [Game.Snake Game.Food Snake.Body lookup list_lookup]. split; [done|].
    rewrite Hgrow. split; [done|]. by apply GenerateFood_Done in Hgen as [Hfree _].
  - match type of Hu with
    | context [if ?c then Done ?a ?b else ?e] => destruct c
    end; [injection Hu as <- <-; by left|].
    injection Hu as <- <-. right. split; [done|]. exists newHead.
    cbn [Game.Snake Game.Food Snake.Body lookup list_lookup length].
    split; [done|]. rewrite Hgrow. split_and!; try done.
    rewrite length_take. cbn [length]. lia.
Qed.

Lemma GenerateFood_full_board_Pending (width height : Z) (snake : Snake.t)
    (rand : list Z) :
  0 < width -> 0 < height ->
  (forall row col, 0 <= row < height -> 0 <= col < width ->
                   Coordinates.mk row col ∈ Snake.Body snake) ->
  draws_in_range width height rand ->
  GenerateFood width height snake rand = Pending.
Proof.
  intros Hw Hh Hfull.
  induction rand as [|row|row col rand2 IH] using pairs_ind;
    intros Hrange; cbn [GenerateFood];
    (destruct (Z.leb_spec height 0); [lia|]); try done;
    (destruct (Z.leb_spec width 0); [lia|]); try done.
  destruct Hrange as (Hrow & Hcol & Hrange).
  unfold Snake.Contains.
  rewrite (proj2 (existsb_eqb_elem (Coordinates.mk row col) (Snake.Body snake)))
    by (by apply Hfull).
  cbn [negb]. by apply IH.
Qed.

(** X24.  The game cannot be won.  In a valid running game whose snake
    covers the whole board but for the food, the action that moves the head
    onto the food makes [Update] grow the snake and then look for a free
    cell that does not exist: the call does not return, whatever
    [rand.Intn] draws, so [Winner] is never reached. *)
Theorem Update_eating_last_cell_never_returns (g : Game.t) (action : Action)
    (head : Coordinates.t) (rand : list Z) :
  valid g -> Game.GameState g = Running -> on_board g (Game.Food g) ->
  (forall c, on_board g c -> c = Game.Food g \/ c ∈ Snake.Body (Game.Snake g)) ->
  Snake.Head (Game.Snake g) = Some head ->
  Game.Food g
  = Coordinates.mk
      (Go.wrap64 (Coordinates.Row head
                  + Coordinates.Row
                      (Snake.Direction (Snake.ChangeDirection (Game.Snake g) action))))
      (Go.wrap64 (Coordinates.Col head
                  + Coordinates.Col
                      (Snake.Direction (Snake.ChangeDirection (Game.Snake g) action)))) ->
  draws_in_range (Game.Width g) (Game.Height g) rand ->
  Game.Update g action rand = Pending.
Proof.
  intros [Hbody Hboard Hnodup Hdir Hfood] Hstate Hon Hfull Hhead Hnext Hrange.
  unfold Game.Update. rewrite Hstate.
  assert (Snake.Body (Snake.ChangeDirection (Game.Snake g) action)
          = Snake.Body (Game.Snake g)) as Hb by (by destruct action).
  remember (Snake.ChangeDirection (Game.Snake g) action) as snake eqn:Hsnake.
  clear Hsnake. unfold Snake.Head in *. rewrite <- Hb in *. clear Hb.
  unfold Snake.Move, Snake.Head. rewrite Hhead.
  destruct Hon as [Hon1 Hon2]. rewrite <- Hnext.
  replace (_ || _) with false by (symmetry; rewrite !orb_false_iff; lia).
  rewrite (proj2 (Coordinates_eqb_eq (Game.Food g) (Game.Food g)) eq_refl).
  rewrite (proj2 (existsb_eqb_not_elem (Game.Food g) (Snake.Body snake)) Hfood).
  rewrite GenerateFood_full_board_Pending; [done|lia|lia| |done].
  intros row col Hr Hc. cbn [Snake.Body].
  destruct (Hfull (Coordinates.mk row col)) as [->|Hin]; [done|left|by right].
Qed.

(** X25.  [NewGame] returns only for a board with a positive width and
    height, and then the game is valid and running: the snake is one cell
    at row [height/2] and column [width/2], heading right, and the food is
    elsewhere. *)
Theorem NewGame_valid (width height : Z) (rand rand' : list Z) (g : Game.t) :
  Game.NewGame width height rand = Done g rand' ->
  valid g /\ Game.GameState g = Running
  /\ Game.Width g = width /\ Game.Height g = height /\ 0 < width /\ 0 < height
  /\ Game.Snake g
     = Snake.mk [Coordinates.mk (Z.quot height 2) (Z.quot width 2)] (Coordinates.mk 0 1).
Proof.
  unfold Game.NewGame.
  destruct (GenerateFood _ _ _ rand) as [food rand1| |] eqn:Hgen; try discriminate.
  intros [= <- <-]. apply GenerateFood_Done in Hgen as (Hfree & Hw & Hh & _).
  split_and!; try done. constructor; cbn; try done.
  - constructor; [|done]. unfold on_board; cbn.
    pose proof (Z.quot_pos height 2). pose proof (Z.quot_pos width 2).
    pose proof (Z.quot_lt height 2). pose proof (Z.quot_lt width 2). lia.
  - apply NoDup_singleton.
  - unfold unit_direction. left.
Qed.

(** * Properties of the vectors *)

Lemma float_add_comm (x y : float64) : (x + y = y + x)%float.
Proof.
  apply FloatAxioms.Prim2SF_inj. rewrite !FloatAxioms.add_spec.
  unfold FloatAxioms.SF64add.
  destruct (FloatOps.Prim2SF x) as [[]|[]| |sx mx ex],
           (FloatOps.Prim2SF y) as [[]|[]| |sy my ey]; try reflexivity.
  unfold SpecFloat.SFadd. cbv zeta.
  rewrite (Z.min_comm ey ex). f_equal. apply Z.add_comm.
Qed.

Lemma float_mul_comm (x y : float64) : (x * y = y * x)%float.
Proof.
  apply FloatAxioms.Prim2SF_inj. rewrite !FloatAxioms.mul_spec.
  unfold FloatAxioms.SF64mul.
  destruct (FloatOps.Prim2SF x) as [[]|[]| |[] mx ex],
           (FloatOps.Prim2SF y) as [[]|[]| |[] my ey]; try reflexivity;
    unfold SpecFloat.SFmul; cbn [xorb];
    by rewrite (Pos.mul_comm my mx), (Z.add_comm ey ex).
Qed.

Lemma zip_with_comm {A B} (f : A -> A -> B) (l k : list A) :
  (forall a b, f a b = f b a) -> zip_with f l k = zip_with f k l.
Proof.
  intros Hf. revert k. induction l as [|a l IH]; intros [|b k]; cbn; [done..|].
  by rewrite Hf, IH.
Qed.

Lemma dot_loop_comm (l k : list float64) :
  forall sum : float64,
    fold_left (fun sum '(a, b) => (sum + a * b)%float) (zip l k) sum
    = fold_left (fun sum '(a, b) => (sum + a * b)%float) (zip k l) sum.
Proof.
  revert k. induction l as [|a l IH]; intros [|b k] sum; cbn; [done..|].
  by rewrite (float_mul_comm a b), IH.
Qed.

(** X26.  [Add], [Subtract] and [Dot] fail exactly when the two vectors
    differ in length, and never otherwise; the sum and the difference have
    the length of the operands, entry [i] being the sum (the difference) of
    the entries [i]. *)
Theorem Vector_length_mismatch (v other : Vector.t) :
  let mismatch := Failure "vectors must have the same length" in
  (length (Vector.Values v) <> length (Vector.Values other) ->
   Vector.Add v other = Err mismatch /\ Vector.Subtract v other = Err mismatch
   /\ Vector.Dot v other = Err mismatch)
  /\ (length (Vector.Values v) = length (Vector.Values other) ->
      exists sum diff dot,
        Vector.Add v other = Ok sum /\ Vector.Subtract v other = Ok diff
        /\ Vector.Dot v other = Ok dot
        /\ length (Vector.Values sum) = length (Vector.Values v)
        /\ length (Vector.Values diff) = length (Vector.Values v)
        /\ forall i a b,
             Vector.Values v !! i = Some a -> Vector.Values other !! i = Some b ->
             Vector.Values sum !! i = Some (a + b)%float
             /\ Vector.Values diff !! i = Some (a - b)%float).
Proof.
  intros mismatch. unfold Vector.Add, Vector.Subtract, Vector.Dot. split.
  - intros Hne. apply Nat.eqb_neq in Hne. by rewrite Hne.
  - intros Heq. rewrite (proj2 (Nat.eqb_eq _ _) Heq). cbn [negb].
    eexists _, _, _. split_and!; try reflexivity; cbn [Vector.Values Vector.NewVector].
    + rewrite length_zip_with. lia.
    + rewrite length_zip_with. lia.
    + intros i a b Ha Hb. rewrite !lookup_zip_with, Ha, Hb. done.
Qed.

(** X27.  [Add] and [Dot] do not depend on the order of the operands: in
    both orders they fail with the same error or give the same values, each
    a NaN when the other is.  Floats here have a single NaN, so this says
    nothing of the payload of a NaN: two operands that are different NaNs
    may give sums with different bits. *)
Theorem Vector_Add_Dot_commute (v other : Vector.t) :
  Vector.Add v other = Vector.Add other v
  /\ Vector.Dot v other = Vector.Dot other v.
Proof.
  unfold Vector.Add, Vector.Dot.
  rewrite (Nat.eqb_sym (length (Vector.Values other))).
  destruct (_ =? _)%nat; cbn [negb]; [|done]. split.
  - f_equal. f_equal. apply zip_with_comm, float_add_comm.
  - f_equal. apply dot_loop_comm.
Qed.

(** The result of a rounding with a positive sign is not below zero. *)
Lemma binary_round_aux_nonneg (mx ex : Z) (lx : SpecFloat.location) :
  match SpecFloat.binary_round_aux FloatOps.prec FloatOps.emax false mx ex lx with
  | SpecFloat.S754_zero s => s = false
  | SpecFloat.S754_infinity s => s = false
  | SpecFloat.S754_finite s _ _ => s = false
  | SpecFloat.S754_nan => True
  end.
Proof.
  unfold SpecFloat.binary_round_aux.
  destruct (SpecFloat.shr_fexp _ _ mx ex lx) as [mrs' e'].
  destruct (SpecFloat.shr_fexp _ _ _ e' _) as [mrs'' e''].
  destruct (SpecFloat.shr_m mrs''); [done| |done].
  by destruct (_ <=? _).
Qed.

Lemma sqrt_nonneg (x : float64) :
  (0 <=? PrimFloat.sqrt x)%float = true \/ PrimFloat.is_nan (PrimFloat.sqrt x) = true.
Proof.
  unfold PrimFloat.is_nan.
  rewrite FloatAxioms.leb_spec, FloatAxioms.eqb_spec, FloatAxioms.sqrt_spec.
  unfold FloatAxioms.SF64sqrt, SpecFloat.SFsqrt.
  change (FloatOps.Prim2SF 0) with (SpecFloat.S754_zero false).
  destruct (FloatOps.Prim2SF x) as [[]|[]| |[] mx ex]; try (by left); try (by right).
  destruct (SpecFloat.SFsqrt_core_binary _ _ _ _) as [[mz ez] lz].
  pose proof (binary_round_aux_nonneg mz ez lz) as Hs.
  destruct (SpecFloat.binary_round_aux _ _ _ _ _ _) as [s|s| |s m e];
    try subst s; try (by left); by right.
Qed.

Lemma zero_loop (values : list float64) :
  Forall (fun val => val = 0%float \/ val = (-0)%float) values ->
  fold_left (fun sum val => (sum + val * val)%float) values 0%float = 0%float.
Proof.
  induction 1 as [|val rest [-> | ->] _ IH]; cbn [fold_left]; [done|..].
  - change (0 + 0 * 0)%float with 0%float. exact IH.
  - change (0 + -0 * -0)%float with 0%float. exact IH.
Qed.

(** X28.  [Norm] is never negative: it is at least 0 or it is not a
    number.  [Normalize] refuses every vector whose entries are all zero, of
    either sign, the empty vector among them; and when it returns a vector,
    that vector has the length of the operand and the norm was not zero. *)
Theorem Norm_not_negative (v : Vector.t) :
  ((0 <=? Vector.Norm v)%float = true \/ PrimFloat.is_nan (Vector.Norm v) = true)
  /\ (Forall (fun val => val = 0%float \/ val = (-0)%float) (Vector.Values v) ->
      Vector.Normalize v = Err (Failure "cannot normalize a zero vector"))
  /\ (forall u, Vector.Normalize v = Ok u ->
        length (Vector.Values u) = length (Vector.Values v)
        /\ (Vector.Norm v =? 0)%float = false
        /\ forall i val, Vector.Values v !! i = Some val ->
             Vector.Values u !! i = Some (val * (1 / Vector.Norm v))%float).
Proof.
  split_and!.
  - apply sqrt_nonneg.
  - intros Hzero. unfold Vector.Normalize, Vector.Norm. by rewrite zero_loop.
  - unfold Vector.Normalize. intros u. destruct (_ =? _)%float; [discriminate|].
    intros [= <-]. cbn. split_and!; [by rewrite length_fmap|done|].
    intros i val Hi. by rewrite list_lookup_fmap, Hi.
Qed.

(** * Further concrete inputs *)

(** The record of [demo_generation] on the stream: its twelve fields and the
    seven values of its champion. *)
Definition demo_record : list Value :=
  Generation.fields demo_generation
  ++ organism_values demo_organism 5 [Byte.x61; Byte.x62].

Lemma Decode_consumes_one_record_witness :
  exists (o : @Organism.t textGenome) genotype genId data,
    wire (mkStore (H := textGenome) [] demo_record)
    = Generation.fields demo_generation ++ organism_values o genId data
      ++ wire (mkStore [decoded_organism demo_organism] [])
    /\ ReadGenome data genId = Ok genotype
    /\ Organism.Genotype o = Some genotype
    /\ Organism.Flag o = 0 /\ Organism.Species o = None
    /\ heap (mkStore [decoded_organism demo_organism] [])
       = heap (mkStore [] demo_record) ++ [o]
    /\ Generation.Champion demo_generation
       = Some (length (heap (mkStore (H := textGenome) [] demo_record))).
Proof.
  apply (Decode_consumes_one_record (H := textGenome) (mkStore [] demo_record)
           (mkStore [decoded_organism demo_organism] []) demo_generation).
  vm_compute. reflexivity.
Defined.

(** Decoding from an exhausted stream. *)
Lemma Decode_error_kinds_witness :
  ((exists cause msg,
      Wrap EOF "failed to decode Id" = Wrap cause msg /\ msg ∈ decode_messages)
   \/ exists data genId,
        ReadGenome (GenomeAPI := textGenome) data genId
        = Err (Wrap EOF "failed to decode Id"))
  /\ ("failed to decode WinnerGenes" ∉ decode_messages)
  /\ ("failed to decode ExpectedOffspring" ∉ decode_messages)
  /\ ("failed to decode Error" ∉ decode_messages).
Proof.
  apply (Decode_error_kinds (H := textGenome) (mkStore [] [])).
  reflexivity.
Defined.

(** The text genome is written as it is read. *)
Lemma textGenome_reads_what_it_writes (data : list Byte.byte) (genId : Z)
    (genotype : @Genome textGenome) :
  ReadGenome data genId = Ok genotype ->
  Genome_Id genotype = genId /\ Genome_Write genotype = Ok data.
Proof. destruct data; [discriminate|]. intros [= <-]. done. Defined.

Lemma Decode_Encode_roundtrip_witness :
  exists consumed,
    wire (mkStore (H := textGenome) [] demo_record)
    = consumed ++ wire (mkStore [decoded_organism demo_organism] [])
    /\ forall w,
         Generation.Encode demo_generation (mkStore [decoded_organism demo_organism] w)
         = Ok (tt, mkStore [decoded_organism demo_organism] (w ++ consumed)).
Proof.
  apply (Decode_Encode_roundtrip (H := textGenome) (mkStore [] demo_record)
           (mkStore [decoded_organism demo_organism] []) demo_generation).
  - exact textGenome_reads_what_it_writes.
  - vm_compute. reflexivity.
Defined.

(** An organism without a genotype. *)
Definition bare_organism : @Organism.t textGenome :=
  Organism.mk (H := textGenome) 0.5%float false 2 0%float 0%float 0 None None.

(** What [encodeOrganism] writes for it. *)
Definition bare_values : list Value :=
  [ VFloat 0.5%float; VBool false; VInt 2; VFloat 0%float; VFloat 0%float ].

Lemma Encode_without_genotype_witness :
  Generation.Encode demo_generation (mkStore [bare_organism] [])
  = Ok (tt, mkStore [bare_organism]
              ([] ++ Generation.fields demo_generation ++ bare_values))
  /\ Generation.Decode (mkStore (H := textGenome) []
                          (Generation.fields demo_generation ++ bare_values))
     = Err (Wrap EOF "failed to decode genId").
Proof.
  apply (Encode_without_genotype demo_generation [bare_organism] [] [] 0%nat bare_organism);
    reflexivity.
Defined.

Lemma Encode_reads_only_witness :
  heap (mkStore [demo_organism] demo_record) = heap (mkStore [demo_organism] [])
  /\ exists enc,
       wire (mkStore [demo_organism] demo_record)
       = wire (mkStore [demo_organism] []) ++ Generation.fields demo_generation ++ enc
       /\ match Generation.Champion demo_generation with
          | None => enc = []
          | Some p =>
              exists o, heap (mkStore [demo_organism] []) !! p = Some o
                        /\ length enc = match Organism.Genotype o with
                                        | Some _ => 7%nat
                                        | None => 5%nat
                                        end
          end.
Proof.
  apply (Encode_reads_only demo_generation (mkStore [demo_organism] [])
           (mkStore [demo_organism] demo_record) tt).
  vm_compute. reflexivity.
Defined.

(** Two species over two organisms: [demo_loser], at address 1, is the
    fittest of the first. *)
Definition two_species : Population.t :=
  Population.mk [Species.mk 3 [0%nat; 1%nat]; Species.mk 5 [0%nat]].

Definition two_species_sorted : Population.t :=
  Population.mk [Species.mk 3 [1%nat; 0%nat]; Species.mk 5 [0%nat]].

Definition two_species_filled : Generation.t :=
  Generation.mk 0 0 0 (Some 1%nat) false
    [99%float; 0.75%float] [3%float; 5%float] [10%float; 10%float] 2 0 0 0 0.

Lemma FillPopulationStatistics_frame_witness :
  Generation.Id two_species_filled = Generation.Id Generation.zero
  /\ Generation.Executed two_species_filled = Generation.Executed Generation.zero
  /\ Generation.Duration two_species_filled = Generation.Duration Generation.zero
  /\ Generation.Solved two_species_filled = Generation.Solved Generation.zero
  /\ Generation.WinnerEvals two_species_filled = Generation.WinnerEvals Generation.zero
  /\ Generation.WinnerNodes two_species_filled = Generation.WinnerNodes Generation.zero
  /\ Generation.WinnerGenes two_species_filled = Generation.WinnerGenes Generation.zero
  /\ Generation.TrialId two_species_filled = Generation.TrialId Generation.zero
  /\ (Generation.Solved Generation.zero = true ->
      Generation.Champion two_species_filled = Generation.Champion Generation.zero).
Proof.
  apply (FillPopulationStatistics_frame by_fitness (fun _ => 10)
           [demo_organism; demo_loser] Generation.zero two_species_filled
           two_species two_species_sorted).
  vm_compute. reflexivity.
Defined.

Lemma FillPopulationStatistics_representatives_witness :
  Forall2 (fun sp sp' : Species.t =>
             Species.Age sp' = Species.Age sp
             /\ Species.Organisms sp' ≡ₚ Species.Organisms sp)
          (Population.Species two_species) (Population.Species two_species_sorted)
  /\ forall (i : nat) (sp' : Species.t),
       Population.Species two_species_sorted !! i = Some sp' ->
       exists (p0 : ptr) (org0 : Organism.t),
         head (Species.Organisms sp') = Some p0
         /\ [demo_organism; demo_loser] !! p0 = Some org0
         /\ Generation.Age two_species_filled !! i
            = Some (Go.float64_of_int (Species.Age sp'))
         /\ Generation.Fitness two_species_filled !! i = Some (Organism.Fitness org0)
         /\ Generation.Complexity two_species_filled !! i = Some (Go.float64_of_int 10).
Proof.
  apply (FillPopulationStatistics_representatives by_fitness (fun _ => 10)
           [demo_organism; demo_loser] Generation.zero two_species_filled
           two_species two_species_sorted).
  vm_compute. reflexivity.
Defined.

Lemma FillPopulationStatistics_champion_is_fittest_witness :
  Generation.Solved Generation.zero = false
  /\ forall x : float64,
    x ∈ Generation.Fitness two_species_filled ->
    (Go.float64_of_int Go.minInt64 <? x)%float = true ->
    exists (p : ptr) (o : Organism.t),
      Generation.Champion two_species_filled = Some p
      /\ [demo_organism; demo_loser] !! p = Some o
      /\ (Organism.Fitness o <? x)%float = false.
Proof.
  split; [reflexivity|].
  apply (FillPopulationStatistics_champion_is_fittest by_fitness (fun _ => 10)
           [demo_organism; demo_loser] Generation.zero two_species_filled
           two_species two_species_sorted).
  - reflexivity.
  - vm_compute. reflexivity.
Defined.

(** Two trials, one of the longest duration an [int64] holds and one of
    none: the sum fits, the product of the count and the bound does not. *)
Definition long_experiment : Experiment.t :=
  Experiment.mk 9 "xor" 42
    [Trial.mk [] None Go.maxInt64; Trial.mk [] None 0] 16%float.

Lemma AvgTrialDuration_bounds_witness :
  if decide (Experiment.Trials long_experiment = [])
  then Experiment.AvgTrialDuration 0 long_experiment = 0
  else Experiment.AvgTrialDuration 0 long_experiment
       = Z.quot (exact_total (Experiment.Trials long_experiment))
                (Z.of_nat (length (Experiment.Trials long_experiment)))
       /\ 0 <= Experiment.AvgTrialDuration 0 long_experiment <= Go.maxInt64.
Proof.
  apply (AvgTrialDuration_bounds 0 Go.maxInt64 long_experiment).
  - repeat constructor; cbn; unfold Go.maxInt64; lia.
  - vm_compute. discriminate.
Defined.

Lemma AvgWinnerStatistics_unsolved_witness :
  Experiment.AvgWinnerStatistics unsolved_experiment
  = Some ((-1)%float, (-1)%float, (-1)%float, (-1)%float).
Proof.
  apply (AvgWinnerStatistics_unsolved unsolved_experiment). reflexivity.
Defined.

(** One trial, solved, with a champion of fitness 0.75: the score is 0. *)
Lemma EfficiencyScore_few_trials_not_positive_witness :
  Experiment.EfficiencyScore (fun _ => 10) 0 (fun x => x) [demo_organism] demo_experiment
  = Some (Experiment.penaltyScore 0 demo_experiment 0%float)
  /\ (0 <? Experiment.penaltyScore 0 demo_experiment 0%float)%float = false.
Proof.
  apply (EfficiencyScore_few_trials_not_positive (fun _ => 10) 0 (fun x => x)
           [demo_organism] demo_experiment).
  vm_compute. discriminate.
Defined.

(** A snake of one cell in the middle of a 3 by 3 board, heading right,
    with the food in front of it. *)
Definition demo_game : Game.t :=
  Game.mk 3 3 (Snake.mk [Coordinates.mk 1 1] (Coordinates.mk 0 1))
          (Coordinates.mk 1 2) Running.

(** [demo_game] after the snake has eaten, with the new food drawn at the
    second try. *)
Definition demo_game_fed : Game.t :=
  Game.mk 3 3 (Snake.mk [Coordinates.mk 1 2; Coordinates.mk 1 1] (Coordinates.mk 0 1))
          (Coordinates.mk 0 0) Running.

(** A board of two cells: the snake, heading down, on the right one and the
    food on the left one. *)
Definition last_cell_game : Game.t :=
  Game.mk 2 1 (Snake.mk [Coordinates.mk 0 1] (Coordinates.mk 1 0))
          (Coordinates.mk 0 0) Running.

Lemma demo_game_valid : valid demo_game.
Proof.
  constructor; cbn.
  - discriminate.
  - repeat constructor; cbn; lia.
  - apply NoDup_singleton.
  - left.
  - intros Hin. apply list_elem_of_singleton in Hin. discriminate Hin.
Defined.

Lemma last_cell_game_valid : valid last_cell_game.
Proof.
  constructor; cbn.
  - discriminate.
  - repeat constructor; cbn; lia.
  - apply NoDup_singleton.
  - do 3 right. left.
  - intros Hin. apply list_elem_of_singleton in Hin. discriminate Hin.
Defined.

(** A snake of one cell heading right. *)
Definition demo_snake : Snake.t := Snake.NewSnake 0 1.

Lemma ChangeDirection_rotations_witness :
  Snake.Body (Snake.ChangeDirection demo_snake RotateLeft) = Snake.Body demo_snake
  /\ Snake.ChangeDirection (Snake.ChangeDirection demo_snake RotateRight) RotateLeft = demo_snake
  /\ Snake.ChangeDirection (Snake.ChangeDirection demo_snake RotateLeft) RotateRight = demo_snake
  /\ Snake.ChangeDirection demo_snake DoNothing = demo_snake
  /\ (unit_direction (Snake.Direction demo_snake) ->
      unit_direction (Snake.Direction (Snake.ChangeDirection demo_snake RotateLeft))
      /\ Snake.Direction (Snake.ChangeDirection demo_snake RotateLeft)
         <> Coordinates.mk (- Coordinates.Row (Snake.Direction demo_snake))
                           (- Coordinates.Col (Snake.Direction demo_snake))
      /\ Snake.ChangeDirection
           (Snake.ChangeDirection
              (Snake.ChangeDirection (Snake.ChangeDirection demo_snake RotateLeft) RotateLeft)
              RotateLeft) RotateLeft = demo_snake).
Proof.
  apply (ChangeDirection_rotations demo_snake RotateLeft);
    cbn; unfold is_int; vm_compute; split; discriminate.
Defined.

Lemma GenerateFood_returns_free_cell_witness :
  Snake.Contains (Game.Snake demo_game_fed) (Coordinates.mk 0 0) = false
  /\ 0 < 3 /\ 0 < 3
  /\ exists rejected,
       [1; 2; 0; 0]
       = rejected ++ Coordinates.Row (Coordinates.mk 0 0)
                  :: Coordinates.Col (Coordinates.mk 0 0) :: []
       /\ Nat.Even (length rejected).
Proof.
  apply (GenerateFood_returns_free_cell 3 3 (Game.Snake demo_game_fed) [1; 2; 0; 0] []
           (Coordinates.mk 0 0)).
  reflexivity.
Defined.

(** A board of one cell, which the snake covers. *)
Lemma GenerateFood_full_board_never_returns_witness :
  draws_in_range 1 1 [0; 0; 0; 0]
  /\ forall food rand',
       GenerateFood 1 1 (Snake.NewSnake 0 0) [0; 0; 0; 0] <> Done food rand'.
Proof.
  split; [cbn; lia|].
  apply (GenerateFood_full_board_never_returns 1 1 (Snake.NewSnake 0 0) [0; 0; 0; 0]).
  - intros row col Hrow Hcol. replace row with 0 by lia. replace col with 0 by lia. left.
  - cbn. lia.
Defined.

Lemma Update_preserves_valid_witness :
  Game.Update demo_game DoNothing [1; 2; 0; 0] <> Panics
  /\ forall g' rand',
       Game.Update demo_game DoNothing [1; 2; 0; 0] = Done g' rand' ->
       valid g' /\ Game.Width g' = Game.Width demo_game
       /\ Game.Height g' = Game.Height demo_game.
Proof.
  apply (Update_preserves_valid demo_game DoNothing [1; 2; 0; 0]).
  exact demo_game_valid.
Defined.

Lemma Update_never_wins_witness :
  (Game.GameState demo_game <> Running -> demo_game_fed = demo_game /\ [] = [1; 2; 0; 0])
  /\ (Game.GameState demo_game = Running ->
      (Game.GameState demo_game_fed = GameOver
       /\ Snake.Body (Game.Snake demo_game_fed) = Snake.Body (Game.Snake demo_game)
       /\ Game.Food demo_game_fed = Game.Food demo_game /\ [] = [1; 2; 0; 0])
      \/ (Game.GameState demo_game_fed = Running
          /\ exists head,
               Snake.Head (Game.Snake demo_game_fed) = Some head
               /\ if Coordinates.eqb head (Game.Food demo_game)
                  then length (Snake.Body (Game.Snake demo_game_fed))
                       = S (length (Snake.Body (Game.Snake demo_game)))
                       /\ Game.Food demo_game_fed ∉ Snake.Body (Game.Snake demo_game_fed)
                  else length (Snake.Body (Game.Snake demo_game_fed))
                       = length (Snake.Body (Game.Snake demo_game))
                       /\ Game.Food demo_game_fed = Game.Food demo_game
                       /\ [] = [1; 2; 0; 0])).
Proof.
  apply (Update_never_wins demo_game demo_game_fed DoNothing [1; 2; 0; 0] []).
  reflexivity.
Defined.

Lemma Update_eating_last_cell_never_returns_witness :
  Game.Update last_cell_game RotateRight [0; 1; 0; 0; 0; 1] = Pending.
Proof.
  apply (Update_eating_last_cell_never_returns last_cell_game RotateRight
           (Coordinates.mk 0 1) [0; 1; 0; 0; 0; 1]).
  - exact last_cell_game_valid.
  - reflexivity.
  - unfold on_board; cbn; lia.
  - intros [row col] [Hrow Hcol]; cbn in Hrow, Hcol.
    replace row with 0 by lia.
    destruct (Z.eq_dec col 0) as [->|Hne]; [by left|right].
    replace col with 1 by lia. left.
  - reflexivity.
  - reflexivity.
  - cbn. lia.
Defined.

(** The game [NewGame] makes on a board of two cells when the first cell
    drawn is the snake's. *)
Definition demo_new_game : Game.t :=
  Game.mk 2 1 (Snake.NewSnake 0 1) (Coordinates.mk 0 0) Running.

Lemma NewGame_valid_witness :
  valid demo_new_game /\ Game.GameState demo_new_game = Running
  /\ Game.Width demo_new_game = 2 /\ Game.Height demo_new_game = 1 /\ 0 < 2 /\ 0 < 1
  /\ Game.Snake demo_new_game
     = Snake.mk [Coordinates.mk (Z.quot 1 2) (Z.quot 2 2)] (Coordinates.mk 0 1).
Proof.
  apply (NewGame_valid 2 1 [0; 1; 0; 0] [] demo_new_game).
  reflexivity.
Defined.
